(** * Embed tool: service matching and configuration merging

    A shallow embedding of [src/index.js] (class [Embed]): the validator
    [checkServiceConfig], the registry composer [prepare], the resolver
    [performServices] and the [data] accessor pair, together with the
    fragment of JavaScript they run on (values, truthiness, [typeof],
    property reads, [RegExp.prototype.exec], [String.prototype.replace]).

    JavaScript objects are finite maps from property names to values;
    exceptions are explicit ([completion]); the block instance is a record
    that is passed in and returned. *)

From Stdlib Require Import ZArith Ascii String.
From stdpp Require Import gmap strings list fin_maps pretty.

Local Open Scope string_scope.
Local Open Scope list_scope.

(** ** Regular expressions

    The fragment of the pattern language that service rules are written in,
    with the backtracking semantics of the language standard: greedy
    quantifiers, numbered capture groups, leftmost match. *)
Module RegExp.

Inductive charset :=
| Word                       (* \w *)
| Digit                      (* \d *)
| Any                        (* .  *)
| OneOf (cs : list ascii)    (* [...]  *)
| NoneOf (cs : list ascii).  (* [^...] *)

Inductive syntax :=
| Empty
| Char (c : ascii)
| Class (cs : charset)
| Seq (r1 r2 : syntax)
| Alt (r1 r2 : syntax)
| Repeat (min : nat) (r : syntax)   (* r{min,} ; r* is Repeat 0, r+ is Repeat 1 *)
| Group (r : syntax).               (* ( r ) *)

Definition between (lo hi c : ascii) : bool :=
  (N.leb (N_of_ascii lo) (N_of_ascii c)) && (N.leb (N_of_ascii c) (N_of_ascii hi)).

Definition is_digit (c : ascii) : bool := between "0" "9" c.

Definition is_word (c : ascii) : bool :=
  between "a" "z" c || between "A" "Z" c || is_digit c || Ascii.eqb c "_".

Definition is_line_terminator (c : ascii) : bool :=
  Ascii.eqb c "010" || Ascii.eqb c "013".

Definition in_charset (cs : charset) (c : ascii) : bool :=
  match cs with
  | Word => is_word c
  | Digit => is_digit c
  | Any => negb (is_line_terminator c)
  | OneOf l => existsb (Ascii.eqb c) l
  | NoneOf l => negb (existsb (Ascii.eqb c) l)
  end.

(** Number of capture groups of a pattern. *)
Fixpoint groups (r : syntax) : nat :=
  match r with
  | Empty | Char _ | Class _ => 0
  | Seq r1 r2 | Alt r1 r2 => groups r1 + groups r2
  | Repeat _ r => groups r
  | Group r => S (groups r)
  end.

Definition captures := list (option string).
Definition cont := string -> captures -> option (string * captures).

(** The part of [s] that was consumed to reach its suffix [rest]. *)
Definition consumed (s rest : string) : string :=
  substring 0 (String.length s - String.length rest) s.

(** Captures [i .. i+n-1] are reset when a quantified atom is re-entered. *)
Fixpoint clear (i n : nat) (caps : captures) : captures :=
  match n with
  | 0 => caps
  | S n' => <[i := None]> (clear (S i) n' caps)
  end.

(** [m r i s caps k]: match [r] at the head of [s]; [i] is the index of the
    first capture group of [r]; [k] is the rest of the match. *)
Fixpoint m (r : syntax) (i : nat) (s : string) (caps : captures) (k : cont)
  : option (string * captures) :=
  match r with
  | Empty => k s caps
  | Char c =>
      match s with
      | String c' s' => if Ascii.eqb c c' then k s' caps else None
      | EmptyString => None
      end
  | Class cs =>
      match s with
      | String c' s' => if in_charset cs c' then k s' caps else None
      | EmptyString => None
      end
  | Seq r1 r2 =>
      m r1 i s caps (fun s' caps' => m r2 (i + groups r1) s' caps' k)
  | Alt r1 r2 =>
      match m r1 i s caps k with
      | Some res => Some res
      | None => m r2 (i + groups r1) s caps k
      end
  | Group r' =>
      m r' (S i) s caps (fun s' caps' => k s' (<[i := Some (consumed s s')]> caps'))
  | Repeat min r' =>
      (fix loop (fuel done : nat) (s : string) (caps : captures) :=
         match fuel with
         | 0 => None
         | S fuel' =>
             let again :=
               m r' i s (clear i (groups r') caps)
                 (fun s' caps' =>
                    if (min <=? done)%nat
                       && (String.length s' =? String.length s)%nat
                    then None
                    else loop fuel' (S done) s' caps') in
             match again with
             | Some res => Some res
             | None => if (min <=? done)%nat then k s caps else None
             end
         end) (S (String.length s) + min) 0 s caps
  end.

(** [pattern.exec(s)] for a pattern without flags: the leftmost match, as
    the matched text followed by the capture groups; [None] is JavaScript's
    [null]. *)
Fixpoint exec_from (r : syntax) (s : string) : option (string * captures) :=
  match m r 0 s (replicate (groups r) None) (fun rest caps => Some (rest, caps)) with
  | Some (rest, caps) => Some (consumed s rest, caps)
  | None =>
      match s with
      | EmptyString => None
      | String _ s' => exec_from r s'
      end
  end.

Definition exec (r : syntax) (s : string) : option (string * captures) :=
  exec_from r s.

(** The match of [r] at the head of [s]: the matched text, the capture
    groups, and what follows the match. *)
Definition match_at (r : syntax) (s : string) : option (string * captures * string) :=
  match m r 0 s (replicate (groups r) None) (fun rest caps => Some (rest, caps)) with
  | Some (rest, caps) => Some (consumed s rest, caps, rest)
  | None => None
  end.

(** The leftmost match of [r] in [s], in the same form. *)
Fixpoint search (r : syntax) (s : string) : option (string * captures * string) :=
  match match_at r s with
  | Some found => Some found
  | None =>
      match s with
      | EmptyString => None
      | String _ s' => search r s'
      end
  end.

(** Literal text as a pattern. *)
Fixpoint lit (s : string) : syntax :=
  match s with
  | EmptyString => Empty
  | String c s' => Seq (Char c) (lit s')
  end.

End RegExp.

(** ** JavaScript values *)

(** A string is a sequence of UTF-16 code units; the model has the strings
    whose code units are below 256, one character per code unit. *)

(** [s] without its first [n] characters. *)
Fixpoint string_drop (n : nat) (s : string) : string :=
  match n, s with
  | S n', String _ s' => string_drop n' s'
  | _, _ => s
  end.

(** A number: the code only asks whether one is finite and whether it is
    falsy (zero or NaN), so the finite ones are represented by integers. *)
Inductive number :=
| NaN
| Infinity (negative : bool)
| Finite (z : Z).

Inductive exn :=
| TypeError
| Error (msg : string).

(** Outcome of evaluating code that may throw. *)
Inductive completion (A : Type) :=
| Normal (a : A)
| Throw (e : exn).
Arguments Normal {A} a.
Arguments Throw {A} e.

#[export] Instance completion_ret : MRet completion := fun A a => Normal a.
#[export] Instance completion_bind : MBind completion := fun A B f c =>
  match c with
  | Normal a => f a
  | Throw e => Throw e
  end.

Definition is_throw {A} (c : completion A) : bool :=
  match c with Throw _ => true | Normal _ => false end.

(** A [RegExp] object: its source text, the pattern it denotes, the flags
    [g] and [y], and the value of its [lastIndex] when it is used (the
    host's own use of the pattern table moves it too). The other flags
    change what a pattern matches and are outside the fragment. Each rule
    holds a [RegExp] object of its own. *)
Record regexp := {
  re_source : string;
  re_pattern : RegExp.syntax;
  re_global : bool;
  re_sticky : bool;
  re_lastIndex : nat
}.

(** The [RegExp] written [/source/], without flags. *)
Definition regexp_of (source : string) (pattern : RegExp.syntax) : regexp :=
  {| re_source := source; re_pattern := pattern;
     re_global := false; re_sticky := false; re_lastIndex := 0 |}.

(** [r.lastIndex = i]. *)
Definition set_lastIndex (r : regexp) (i : nat) : regexp :=
  {| re_source := re_source r; re_pattern := re_pattern r;
     re_global := re_global r; re_sticky := re_sticky r; re_lastIndex := i |}.

(** [r.exec(s)]: the match (JavaScript's [null] is [None]) and the object
    afterwards. Without [g] and [y] the search starts at 0 and [lastIndex]
    is left alone; with one of them it starts at [lastIndex] ([y]: matches
    there only), and [lastIndex] becomes the end of the match, or 0 when
    there is none. *)
Definition regexp_exec (r : regexp) (s : string)
  : option (string * RegExp.captures) * regexp :=
  let stateful := re_global r || re_sticky r in
  let lastIndex := if stateful then re_lastIndex r else 0 in
  if (String.length s <? lastIndex)%nat
  then (None, if stateful then set_lastIndex r 0 else r)
  else
    let found :=
      if re_sticky r
      then RegExp.match_at (re_pattern r) (string_drop lastIndex s)
      else RegExp.search (re_pattern r) (string_drop lastIndex s) in
    match found with
    | Some (matched, caps, rest) =>
        (Some (matched, caps),
         if stateful then set_lastIndex r (String.length s - String.length rest) else r)
    | None => (None, if stateful then set_lastIndex r 0 else r)
    end.

(** A function value. The only functions the tool ever calls are the [id]
    extractors of service rules, which take the array of capture groups
    (each a string or [undefined]) and return the resource id (a string or
    [undefined]) or throw. *)
Definition func := list (option string) -> completion (option string).

#[local] Unset Elimination Schemes.
Inductive value :=
| VUndefined
| VNull
| VBool (b : bool)
| VNum (n : number)
| VStr (s : string)
| VRegExp (r : regexp)
| VFun (f : func)
| VObj (props : gmap string value).
#[local] Set Elimination Schemes.

(** A plain object: own enumerable properties. *)
Abbreviation obj := (gmap string value).

(** [ToBoolean]. *)
Definition to_boolean (v : value) : bool :=
  match v with
  | VUndefined | VNull => false
  | VBool b => b
  | VNum NaN => false
  | VNum (Infinity _) => true
  | VNum (Finite z) => negb (Z.eqb z 0)
  | VStr s => negb (String.eqb s "")
  | VRegExp _ | VFun _ | VObj _ => true
  end.

Inductive jstype := TUndefined | TObject | TBoolean | TNumber | TString | TFunction.

#[export] Instance jstype_eq_dec : EqDecision jstype.
Proof. solve_decision. Defined.

(** [typeof v]. *)
Definition typeof (v : value) : jstype :=
  match v with
  | VUndefined => TUndefined
  | VNull => TObject
  | VBool _ => TBoolean
  | VNum _ => TNumber
  | VStr _ => TString
  | VRegExp _ => TObject
  | VFun _ => TFunction
  | VObj _ => TObject
  end.

(** [a && b] and [a || b] on values (the operands below have no effects). *)
Definition js_and (a b : value) : value := if to_boolean a then b else a.
Definition js_or (a b : value) : value := if to_boolean a then a else b.

Definition is_undefined (v : value) : bool :=
  match v with VUndefined => true | _ => false end.

Definition instanceof_RegExp (v : value) : bool :=
  match v with VRegExp _ => true | _ => false end.

Definition instanceof_Function (v : value) : bool :=
  match v with VFun _ => true | _ => false end.

Definition instanceof_Object (v : value) : bool :=
  match v with VObj _ | VRegExp _ | VFun _ => true | _ => false end.

(** [Number.isFinite(v)]. *)
Definition Number_isFinite (v : value) : bool :=
  match v with VNum (Finite _) => true | _ => false end.

(** [o.k] for a plain object [o]. *)
Definition prop (o : obj) (k : string) : value := default VUndefined (o !! k).

(** [v.k] for a value that is not [undefined] or [null]: a [RegExp] answers
    [source]; no other name the tool reads exists on a primitive, a function
    or a [RegExp]. *)
Definition read (v : value) (k : string) : value :=
  match v with
  | VObj o => prop o k
  | VRegExp r => if String.eqb k "source" then VStr (re_source r) else VUndefined
  | _ => VUndefined
  end.

(** [v.k] as read by a destructuring pattern [const {k} = v]: reading from
    [undefined] or [null] throws. *)
Definition get_prop (v : value) (k : string) : completion value :=
  match v with
  | VUndefined | VNull => Throw TypeError
  | _ => Normal (read v k)
  end.

(** ** The validator *)

(** [Embed.checkServiceConfig(config)]. *)
Definition checkServiceConfig (config : value) : completion value :=
  regex ← get_prop config "regex";
  embedUrl ← get_prop config "embedUrl";
  html ← get_prop config "html";
  height ← get_prop config "height";
  width ← get_prop config "width";
  id ← get_prop config "id";
  let isValid :=
    js_and (js_and (js_and (js_and (js_and
      regex (VBool (instanceof_RegExp regex)))
      embedUrl) (VBool (bool_decide (typeof embedUrl = TString))))
      html) (VBool (bool_decide (typeof html = TString))) in
  let isValid :=
    js_and isValid
      (if negb (is_undefined id) then VBool (instanceof_Function id) else VBool true) in
  let isValid :=
    js_and isValid
      (if negb (is_undefined height) then VBool (Number_isFinite height) else VBool true) in
  let isValid :=
    js_and isValid
      (if negb (is_undefined width) then VBool (Number_isFinite width) else VBool true) in
  mret isValid.

(** ** The registry composer *)

(** [Object.entries(v)]: own enumerable string-keyed properties. A string
    has one entry per character; the other primitives, functions and
    [RegExp] objects have none. *)
Definition Object_entries (v : value) : completion (list (string * value)) :=
  match v with
  | VUndefined | VNull => Throw TypeError
  | VObj o => Normal (map_to_list o)
  | VStr s =>
      Normal (imap (fun i c => (pretty i, VStr (String c ""))) (list_ascii_of_string s))
  | VBool _ | VNum _ | VRegExp _ | VFun _ => Normal []
  end.

(** [Object.assign({}, a, b)] on plain objects: the properties of [b] win. *)
Definition Object_assign (a b : obj) : obj := b ∪ a.

(** [array.filter(f)] for a callback that may throw; the callback's result
    is used through [ToBoolean]. *)
Fixpoint filter_by {A} (f : A -> completion value) (l : list A) : completion (list A) :=
  match l with
  | [] => mret []
  | x :: l' =>
      keep ← f x;
      rest ← filter_by f l';
      mret (if to_boolean keep then x :: rest else rest)
  end.

(** [typeof value === 'boolean' && value === true]. *)
Definition is_enabled (v : value) : bool :=
  bool_decide (typeof v = TBoolean) && match v with VBool true => true | _ => false end.

(** The record built from a custom service,
    [{regex, embedUrl, html, height, width, id}]. *)
Definition project (service : value) : completion obj :=
  regex ← get_prop service "regex";
  embedUrl ← get_prop service "embedUrl";
  html ← get_prop service "html";
  height ← get_prop service "height";
  width ← get_prop service "width";
  id ← get_prop service "id";
  mret (<["regex" := regex]> (<["embedUrl" := embedUrl]> (<["html" := html]>
       (<["height" := height]> (<["width" := width]> (<["id" := id]> ∅)))))).

(** The static properties [Embed.services] and [Embed.patterns]. *)
Record statics := { services : gmap string obj; patterns : obj }.

Definition enabledServices (entries : list (string * value)) : list string :=
  (filter (fun kv => is_enabled kv.2) entries).*1.

Definition userServices (entries : list (string * value)) : completion (list (string * obj)) :=
  checked ← filter_by (fun kv => checkServiceConfig kv.2)
              (filter (fun kv => typeof kv.2 = TObject) entries);
  mapM (fun kv => service ← project kv.2; mret (kv.1, service)) checked.

(** [entries] after the allow-list filter (lines 301-303). *)
Definition base_entries (SERVICES : gmap string obj) (enabled : list string)
  : list (string * obj) :=
  let entries := map_to_list SERVICES in
  if bool_decide (length enabled ≠ 0)
  then filter (fun kv => kv.1 ∈ enabled) entries
  else entries.

(** The callback of the first [reduce]. [key in result] also holds for the
    names [result] inherits from [Object.prototype]; what is inherited
    there is a function without enumerable properties, so the assigned
    object has the properties of [service] on either branch. The name
    [__proto__] is not modelled. *)
Definition merge_service (result : gmap string obj) (entry : string * obj)
  : gmap string obj :=
  let '(key, service) := entry in
  match result !! key with
  | None => <[key := service]> result
  | Some previous => <[key := Object_assign previous service]> result
  end.

(** The callback of the second [reduce]. *)
Definition add_pattern (result : obj) (entry : string * obj) : obj :=
  let '(key, item) := entry in <[key := prop item "regex"]> result.

(** [Embed.prepare({config})], with [SERVICES] the imported default table.
    The result is the new value of the static properties; when it throws
    they are left as they were. *)
Definition prepare (SERVICES : gmap string obj) (config : value) : completion statics :=
  let config := if is_undefined config then VObj ∅ else config in
  services ← get_prop config "services";
  let services := if is_undefined services then VObj ∅ else services in
  entries ← Object_entries services;
  let enabled := enabledServices entries in
  entries' ← Object_entries services;
  user ← userServices entries';
  let entries := base_entries SERVICES enabled ++ user in
  mret {| services := foldl merge_service ∅ entries;
          patterns := foldl add_pattern ∅ entries |}.

(** [Embed.pasteConfig]. *)
Definition pasteConfig (st : statics) : obj := {[ "patterns" := VObj (patterns st) ]}.

(** ** The block instance *)

(** What the tool observes of a rendered container: the [innerHTML] of its
    first descendant carrying the host's input class, if there is one. A
    rendered container is taken to be attached to the document. *)
Record view := { input_html : option string }.

(** The container built when no service is set: the prompt holding one
    empty editable input. *)
Definition input_holder : view := {| input_html := Some "" |}.

(** The instance fields the core touches: [this._data] and [this.element]. *)
Record block := { _data : obj; element : option view }.

(** What the surrounding engine and document answer:
    - [ToPropertyKey v] for a [v] that is not a string;
    - building the framed container from a rule's [html] and the embed
      address (lines 166-185), which throws when the markup has no root
      element. *)
Record host := {
  property_key : value -> string;
  mount_frame : value -> value -> completion view
}.

(** The six fields of [EmbedData]. *)
Definition embed_data (service source embed width height caption : value) : obj :=
  <["service" := service]> (<["source" := source]> (<["embed" := embed]>
  (<["width" := width]> (<["height" := height]> (<["caption" := caption]> ∅))))).

Section Block.

Variable env : host.
(** The value of [Embed.services]. *)
Variable registry : gmap string obj.

(** [get data()]: refreshes the caption from the rendered container. *)
Definition get_data (b : block) : block * obj :=
  match element b with
  | Some v =>
      let d := <["caption" := VStr (default "" (input_html v))]> (_data b) in
      ({| _data := d; element := element b |}, d)
  | None => (b, _data b)
  end.

(** [v || this.data.k]: the getter runs only when [v] is falsy. *)
Definition or_data (v : value) (k : string) (b : block) : block * value :=
  if to_boolean v then (b, v)
  else let '(b', d) := get_data b in (b', prop d k).

(** [Embed.services[v]]. *)
Definition lookup_service (v : value) : option obj :=
  match v with
  | VStr s => registry !! s
  | _ => registry !! property_key env v
  end.

(** [render()]. *)
Definition render (b : block) : block * completion view :=
  let '(b, d) := get_data b in
  if negb (to_boolean (prop d "service")) then
    ({| _data := _data b; element := Some input_holder |}, Normal input_holder)
  else
    let '(b, d) := get_data b in
    match lookup_service (prop d "service") with
    | None => (b, Throw TypeError)
    | Some rule =>
        let html := prop rule "html" in
        let '(b, d) := get_data b in
        match mount_frame env html (prop d "embed") with
        | Throw e => (b, Throw e)
        | Normal container =>
            ({| _data := _data b; element := Some container |}, Normal container)
        end
    end.

(** [set data(data)]: the state afterwards, and the exception if one was
    thrown. *)
Definition set_data (data : value) (b : block) : block * option exn :=
  if negb (instanceof_Object data)
  then (b, Some (Error "Embed Tool data should be object"))
  else
    let service := read data "service" in
    let source := read data "source" in
    let embed := read data "embed" in
    let width := read data "width" in
    let height := read data "height" in
    let caption :=
      if is_undefined (read data "caption") then VStr "" else read data "caption" in
    let '(b, service) := or_data service "service" b in
    let '(b, source) := or_data source "source" b in
    let '(b, embed) := or_data embed "embed" b in
    let '(b, width) := or_data width "width" b in
    let '(b, height) := or_data height "height" b in
    let '(b, caption) := or_data caption "caption" b in
    let caption := js_or caption (VStr "") in
    let b := {| _data := embed_data service source embed width height caption;
                element := element b |} in
    match element b with
    | None => (b, None)
    | Some oldView =>
        match render b with
        | (b, Throw e) => (b, Some e)
        | (b, Normal _) => (b, None)
        end
    end.

(** What the getter returns: the stored record with the caption refreshed. *)
Definition refreshed (b : block) : obj := (get_data b).2.

(** The record the setter stores (lines 86-93). *)
Definition stored (data : value) (b : block) : obj :=
  let keep k := if to_boolean (read data k) then read data k else prop (refreshed b) k in
  let caption :=
    if is_undefined (read data "caption") then VStr "" else read data "caption" in
  embed_data (keep "service") (keep "source") (keep "embed") (keep "width")
    (keep "height")
    (js_or (if to_boolean caption then caption else prop (refreshed b) "caption")
       (VStr "")).

(** [save()]. *)
Definition save (b : block) : block * obj := get_data b.

(** ** The resolver *)

(** The token of [/<\%\= remote\_id \%\>/g]: the pattern is literal text. *)
Definition remote_id : string := "<%= remote_id %>".

(** [GetSubstitution] for a pattern without capture groups: [$$], [$&],
    [$`] and [$'] are expanded, every other character is copied. *)
Fixpoint get_substitution (matched before after replacement : string) : string :=
  match replacement with
  | EmptyString => EmptyString
  | String c rest =>
      if Ascii.eqb c "$" then
        match rest with
        | String d rest' =>
            if Ascii.eqb d "$" then
              String "$" (get_substitution matched before after rest')
            else if Ascii.eqb d "&" then
              matched +:+ get_substitution matched before after rest'
            else if Ascii.eqb d "`" then
              before +:+ get_substitution matched before after rest'
            else if Ascii.eqb d "'" then
              after +:+ get_substitution matched before after rest'
            else String c (get_substitution matched before after rest)
        | EmptyString => String c EmptyString
        end
      else String c (get_substitution matched before after rest)
  end.

(** [s.replace(/token/g, ...)] for literal [token]: every occurrence, left
    to right and not overlapping, is replaced by [expand before after];
    [before] is the text already passed, [skip] the number of characters
    of the current occurrence still to drop. *)
Fixpoint replace_from (token : string) (expand : string -> string -> string)
    (before : string) (skip : nat) (s : string) : string :=
  match s with
  | EmptyString => EmptyString
  | String c s' =>
      let before' := before +:+ String c EmptyString in
      match skip with
      | S n => replace_from token expand before' n s'
      | 0 =>
          if String.prefix token s then
            expand before (string_drop (String.length token) s)
              +:+ replace_from token expand before' (String.length token - 1) s'
          else String c (replace_from token expand before' 0 s')
      end
  end.

(** [embedUrl.replace(/<\%\= remote\_id \%\>/g, replacement)]. *)
Definition replace_remote_id (embedUrl replacement : string) : string :=
  replace_from remote_id
    (fun before after => get_substitution remote_id before after replacement)
    "" 0 embedUrl.

(** [(ids) => ids.shift()]. *)
Definition first_group : func := fun ids => Normal (mjoin (head ids)).

(** [ToString] of what an [id] function returns. *)
Definition id_to_string (v : option string) : string := default "undefined" v.

(** Lines 251-263 up to the assignment: the object literal that is
    assigned to [this.data]. Calling [exec] on what is not a [RegExp],
    [replace] on what is not a string, or an [id] that is not a function
    throws a [TypeError]; what [id] throws is passed on. *)
Definition resolve (service url : string) : completion obj :=
  rule ← (match registry !! service with
          | Some rule => Normal (VObj rule)
          | None => Normal VUndefined
          end);
  regex ← get_prop rule "regex";
  embedUrl ← get_prop rule "embedUrl";
  width ← get_prop rule "width";
  height ← get_prop rule "height";
  id ← get_prop rule "id";
  let id := if is_undefined id then VFun first_group else id in
  match regex with
  | VRegExp r =>
      match (regexp_exec r url).1 with
      | None => Throw TypeError
      | Some (_, result) =>
          match embedUrl with
          | VUndefined | VNull => Throw TypeError
          | _ =>
              remote ← (match id with
                        | VFun f => f result
                        | _ => Throw TypeError
                        end);
              match embedUrl with
              | VStr template =>
                  let embed := replace_remote_id template (id_to_string remote) in
                  Normal (<["service" := VStr service]> (<["source" := VStr url]>
                         (<["embed" := VStr embed]> (<["width" := width]>
                         (<["height" := height]> ∅)))))
              | _ => Throw TypeError
              end
          end
      end
  | _ => Throw TypeError
  end.

(** [Embed.services] after that call: [exec] has moved the [lastIndex] of
    a rule's [regex] that carries [g] or [y]. *)
Definition services_after (service url : string) : gmap string obj :=
  match registry !! service with
  | Some rule =>
      match prop rule "regex" with
      | VRegExp r =>
          <[service := <["regex" := VRegExp (regexp_exec r url).2]> rule]> registry
      | _ => registry
      end
  | None => registry
  end.

(** [performServices(event)] for [event.detail = {key: service, data: url}]. *)
Definition performServices (service url : string) (b : block) : block * option exn :=
  match resolve service url with
  | Throw e => (b, Some e)
  | Normal data => set_data (VObj data) b
  end.

(** [onPaste(event)]. *)
Definition onPaste (service url : string) (b : block) : block * option exn :=
  performServices service url b.

End Block.

(** [new Embed({data, api})]. *)
Definition constructor (env : host) (registry : gmap string obj) (data : value)
  : block * option exn :=
  set_data env registry data {| _data := ∅; element := None |}.

(** ** The tool's own input *)

(** [s.match(name)] read as a condition, for a [name] without pattern
    characters: the pattern built from the string is literal text. *)
Definition String_match (s name : string) : bool :=
  match RegExp.exec (RegExp.lit name) s with
  | Some _ => true
  | None => false
  end.

(** What [matchService] returns: [null], or the object
    [{detail: {key, data}}]. *)
Definition paste_event := option (string * string).

(** [composePasteEventMock(service, url)]. *)
Definition composePasteEventMock (service url : string) : paste_event :=
  Some (service, url).

(** [matchService(url)]. *)
Definition matchService (url : string) : paste_event :=
  if String_match url "youtube" then composePasteEventMock "youtube" url
  else if String_match url "codepen" then composePasteEventMock "codepen" url
  else if String_match url "vimeo" then composePasteEventMock "vimeo" url
  else None.

(** [startLoading(data)]: [performServices(data)], whose destructuring of
    [event.detail] throws on [null]. *)
Definition startLoading (env : host) (registry : gmap string obj)
    (data : paste_event) (b : block) : block * option exn :=
  match data with
  | None => (b, Some TypeError)
  | Some (service, url) => performServices env registry service url b
  end.

(** The input's listeners (paste, and the Enter key):
    [this.startLoading(this.matchService(url))]. *)
Definition submit (env : host) (registry : gmap string obj) (url : string)
    (b : block) : block * option exn :=
  startLoading env registry (matchService url) b.

(** ** Specification-side definitions *)

(** A well-formed service rule, in the words of the data model: [regex] is
    a regular expression, [embedUrl] and [html] are non-empty strings, [id],
    when given, is a function, and [height] and [width], when given, are
    finite numbers. *)
Record valid_rule (r : obj) : Prop := {
  rule_regex : ∃ re, prop r "regex" = VRegExp re;
  rule_embedUrl : ∃ s, prop r "embedUrl" = VStr s ∧ s ≠ "";
  rule_html : ∃ s, prop r "html" = VStr s ∧ s ≠ "";
  rule_id : prop r "id" = VUndefined ∨ ∃ f, prop r "id" = VFun f;
  rule_height : prop r "height" = VUndefined ∨ ∃ z, prop r "height" = VNum (Finite z);
  rule_width : prop r "width" = VUndefined ∨ ∃ z, prop r "width" = VNum (Finite z)
}.

(** The validator as a conjunction of truth values. *)
Definition validb (o : obj) : bool :=
  let optional (v : value) (test : value -> bool) :=
    if negb (is_undefined v) then test v else true in
  to_boolean (prop o "regex") && instanceof_RegExp (prop o "regex")
  && to_boolean (prop o "embedUrl") && bool_decide (typeof (prop o "embedUrl") = TString)
  && to_boolean (prop o "html") && bool_decide (typeof (prop o "html") = TString)
  && optional (prop o "id") instanceof_Function
  && optional (prop o "height") Number_isFinite
  && optional (prop o "width") Number_isFinite.

(** A callback's verdict as [filter] reads it. *)
Definition verdict {A} (f : A → completion value) (x : A) : bool :=
  match f x with
  | Normal r => to_boolean r
  | Throw _ => false
  end.

(** The validator's verdict. *)
Definition accepted (v : value) : bool := verdict checkServiceConfig v.

(** The names of the six fields of a service rule. *)
Definition rule_fields : list string :=
  ["regex"; "embedUrl"; "html"; "height"; "width"; "id"].

(** The object literal of lines 291-298 for a plain object. *)
Definition projection (o : obj) : obj :=
  <["regex" := prop o "regex"]> (<["embedUrl" := prop o "embedUrl"]>
  (<["html" := prop o "html"]> (<["height" := prop o "height"]>
  (<["width" := prop o "width"]> (<["id" := prop o "id"]> ∅))))).

(** What one entry of the user's [services] contributes to [userServices]. *)
Definition custom_of (kv : string * value) : option (string * obj) :=
  match kv.2 with
  | VObj o => if accepted (VObj o) then Some (kv.1, projection o) else None
  | _ => None
  end.

(** The rule a value contributes as a custom service, if any. *)
Definition custom_rule (v : value) : option obj :=
  match v with
  | VObj o => if accepted (VObj o) then Some (projection o) else None
  | _ => None
  end.

(** The default table restricted to the allow-list, when there is one. *)
Definition base_map (SERVICES : gmap string obj) (enabled : list string)
  : gmap string obj :=
  if bool_decide (length enabled ≠ 0)
  then filter (λ kv, kv.1 ∈ enabled) SERVICES
  else SERVICES.

(** A custom rule laid over what the base holds under the same name. *)
Definition overlay (base custom : option obj) : option obj :=
  match custom with
  | None => base
  | Some s => Some (match base with None => s | Some p => Object_assign p s end)
  end.

(** The pattern table is the projection of the registry. *)
Definition projects (reg : gmap string obj) (pats : obj) : Prop :=
  ∀ k, pats !! k = (λ rule, prop rule "regex") <$> reg !! k.

(** The registry built from the default entries alone. *)
Definition base_registry (SERVICES : gmap string obj) (enabled : list string)
  : gmap string obj :=
  foldl merge_service ∅ (base_entries SERVICES enabled).

(** Every occurrence of [token] in [s], left to right and not overlapping,
    replaced by the text [id] itself. *)
Fixpoint substitute_from (token id : string) (skip : nat) (s : string) : string :=
  match s with
  | EmptyString => EmptyString
  | String c s' =>
      match skip with
      | S n => substitute_from token id n s'
      | 0 =>
          if String.prefix token s
          then id +:+ substitute_from token id (String.length token - 1) s'
          else String c (substitute_from token id 0 s')
      end
  end.

Definition substitute (token id s : string) : string := substitute_from token id 0 s.

Fixpoint dollar_free (s : string) : bool :=
  match s with
  | EmptyString => true
  | String c s' => negb (Ascii.eqb c "$") && dollar_free s'
  end.

(** The resource id: what the rule's [id] returns on the capture groups
    when the rule has one, the first capture group otherwise. *)
Definition resource_id (rule : obj) (groups : list (option string))
  : completion (option string) :=
  match prop rule "id" with
  | VFun f => f groups
  | _ => Normal (mjoin (head groups))
  end.

(** A replacement text that [GetSubstitution] copies as it is: no [$] in it
    is followed by [$], [&], a backquote or a quote. *)
Fixpoint expansion_free (s : string) : bool :=
  match s with
  | EmptyString => true
  | String c rest =>
      (if Ascii.eqb c "$" then
         match rest with
         | String d _ =>
             negb (Ascii.eqb d "$" || Ascii.eqb d "&" || Ascii.eqb d "`"
                   || Ascii.eqb d "'")
         | EmptyString => true
         end
       else true)
      && expansion_free rest
  end.

(** The record [{service, source, embed, width, height}] for a rule. *)
Definition descriptor (service url embed : string) (rule : obj) : obj :=
  <["service" := VStr service]> (<["source" := VStr url]>
  (<["embed" := VStr embed]> (<["width" := prop rule "width"]>
  (<["height" := prop rule "height"]> ∅)))).

(** [name] occurs in [s]. *)
Fixpoint includes (name s : string) : bool :=
  String.prefix name s
  || match s with
     | EmptyString => false
     | String _ s' => includes name s'
     end.

(** The fields of [EmbedData] other than the caption. *)
Definition data_fields : list string :=
  ["service"; "source"; "embed"; "width"; "height"].

(** A value the setter can have stored in one of those fields: a truthy
    one, or [undefined] when none was ever supplied. *)
Definition kept (v : value) : Prop := to_boolean v = true ∨ v = VUndefined.

(** A record as the setter leaves it. *)
Definition settled (d : obj) : Prop :=
  dom d = list_to_set (data_fields ++ ["caption"])
  ∧ (∀ k, k ∈ data_fields → kept (prop d k))
  ∧ (to_boolean (prop d "caption") = true ∨ prop d "caption" = VStr "").

(** [null] among the values of a list of entries. *)
Definition has_null (entries : list (string * value)) : bool :=
  existsb (λ kv, match kv.2 with VNull => true | _ => false end) entries.

(** The update the data model describes: the supplied keys overwritten, the
    others kept. *)
Definition partial_update (old supplied : obj) : obj := supplied ∪ old.

(** ** Sample data *)

(** [/id=(\w+)/]. *)
Definition re_id : regexp :=
  regexp_of "id=(\w+)"
    (RegExp.Seq (RegExp.lit "id=")
       (RegExp.Group (RegExp.Repeat 1 (RegExp.Class RegExp.Word)))).

Definition sample_host : host :=
  {| property_key := fun _ => "[object Object]";
     mount_frame := fun _ _ => Normal {| input_html := None |} |}.


(** A rule for [/id=(\w+)/] with the given [embedUrl]. *)
Definition rule_x (template : string) : obj :=
  <["regex" := VRegExp re_id]> (<["embedUrl" := VStr template]>
  (<["html" := VStr "<iframe></iframe>"]> ∅)).

(** A default rule with size hints. *)
Definition sized_rule : obj :=
  <["height" := VNum (Finite 320)]> (<["width" := VNum (Finite 580)]>
  (rule_x "https://x/<%= remote_id %>")).

Definition two_defaults : gmap string obj :=
  <["a" := sized_rule]> (<["b" := sized_rule]> ∅).

(** The configuration [{services: m}]. *)
Definition config_of (m : obj) : value := VObj (<["services" := VObj m]> ∅).

(** A block that holds a resolved embed and has not been rendered. *)
Definition sample_block : block :=
  {| _data := embed_data (VStr "a") (VStr "http://a?id=abc123")
                (VStr "https://x/abc123") (VNum (Finite 580)) (VNum (Finite 320))
                (VStr "");
     element := None |}.

(** ** The validator *)

Lemma to_boolean_js_and a b : to_boolean (js_and a b) = to_boolean a && to_boolean b.
Proof. unfold js_and. destruct (to_boolean a) eqn:E; simpl; [done | by rewrite E]. Qed.

Lemma js_and_bool_true a c :
  js_and a (VBool c) = VBool true ↔ to_boolean a = true ∧ c = true.
Proof.
  unfold js_and. destruct (to_boolean a) eqn:E.
  - split; [intros [= ->]; done | intros [_ ->]; done].
  - split; [intros ->; done | intros [? _]; done].
Qed.

Lemma checkServiceConfig_obj (o : obj) :
  ∃ r, checkServiceConfig (VObj o) = Normal r
       ∧ to_boolean r = validb o
       ∧ (validb o = true → r = VBool true).
Proof.
  unfold checkServiceConfig; simpl.
  eexists; split; [reflexivity |].
  assert (Hb : ∀ v (c : bool), (if c then VBool (v : bool) else VBool true)
                 = VBool (if c then v else true)) by (by intros ? []).
  rewrite !Hb. split.
  - unfold validb. rewrite !to_boolean_js_and. simpl. reflexivity.
  - unfold validb. intros Hv.
    repeat (apply andb_prop in Hv as [Hv ?]).
    apply js_and_bool_true; split; [|done].
    rewrite !to_boolean_js_and; simpl.
    repeat (apply andb_true_intro; split); done.
Qed.

Lemma validb_valid_rule (o : obj) : validb o = true ↔ valid_rule o.
Proof.
  unfold validb. split.
  - intros Hv. repeat (apply andb_prop in Hv as [Hv ?]).
    split.
    + destruct (prop o "regex"); try done. eauto.
    + destruct (prop o "embedUrl") as [| | | |s| | |]; try done.
      exists s; split; [done|]. intros ->; done.
    + destruct (prop o "html") as [| | | |s| | |]; try done.
      exists s; split; [done|]. intros ->; done.
    + destruct (prop o "id"); try done; eauto.
    + destruct (prop o "height") as [| | |[]| | | |]; try done; eauto.
    + destruct (prop o "width") as [| | |[]| | | |]; try done; eauto.
  - intros [[re ->] (s & -> & Hs) (h & -> & Hh) Hid Hheight Hwidth]; simpl.
    assert (∀ t, t ≠ "" → negb (String.eqb t "") = true) as Hne.
    { intros t Ht. destruct (String.eqb_spec t ""); done. }
    rewrite (Hne s Hs), (Hne h Hh); simpl.
    destruct Hid as [-> | [f ->]], Hheight as [-> | [z ->]], Hwidth as [-> | [z' ->]];
      done.
Qed.

Lemma checkServiceConfig_throws v e : checkServiceConfig v = Throw e → e = TypeError.
Proof. destruct v; simpl; intros [= <-] || done; done. Qed.

Lemma accepted_obj (o : obj) : accepted (VObj o) = validb o.
Proof.
  unfold accepted, verdict. destruct (checkServiceConfig_obj o) as (r & -> & Hr & _). done.
Qed.

(** ** The composer: the user's entries *)

Lemma filter_by_normal {A} (f : A → completion value) (l : list A) :
  (∀ x, x ∈ l → ∃ r, f x = Normal r) →
  filter_by f l = Normal (filter (λ x, verdict f x) l).
Proof.
  induction l as [|x l IH]; intros Hl; [done|].
  simpl. destruct (Hl x) as [r Hr]; [left|].
  rewrite IH by (intros; apply Hl; by right).
  rewrite Hr; simpl. rewrite filter_cons.
  assert (verdict f x = to_boolean r) as -> by (unfold verdict; by rewrite Hr).
  destruct (to_boolean r); done.
Qed.

Lemma filter_by_throw {A} (f : A → completion value) (l : list A) x :
  x ∈ l → f x = Throw TypeError →
  (∀ y e, f y = Throw e → e = TypeError) →
  filter_by f l = Throw TypeError.
Proof.
  intros Hx Hfx Hall. induction l as [|y l IH]; [by apply elem_of_nil in Hx|].
  simpl. apply elem_of_cons in Hx as [<- | Hx].
  - by rewrite Hfx.
  - destruct (f y) as [r|e] eqn:Hy; simpl.
    + by rewrite (IH Hx).
    + by rewrite (Hall _ _ Hy).
Qed.

Lemma typeof_object_cases v :
  typeof v = TObject → v = VNull ∨ (∃ r, v = VRegExp r) ∨ (∃ o, v = VObj o).
Proof. destruct v; try done; eauto. Qed.

(** The second stage of [userServices] on entries that passed the filters. *)
Lemma mapM_project (l : list (string * value)) :
  (∀ kv, kv ∈ l → ∃ o, kv.2 = VObj o) →
  mapM (λ kv : string * value, service ← project kv.2; mret (kv.1, service)) l
  = Normal (omap (λ kv, match kv.2 with
                        | VObj o => Some (kv.1, projection o)
                        | _ => None
                        end) l).
Proof.
  induction l as [|[k v] l IH]; intros Hl; [done|].
  destruct (Hl (k, v)) as [o Ho]; [left|]. simpl in Ho; subst v.
  simpl. rewrite IH by (intros; apply Hl; by right). done.
Qed.

(** Without a [null] entry, [userServices] does not throw and keeps, for
    each accepted plain object, its projection. *)
Lemma userServices_normal (entries : list (string * value)) :
  (∀ k, (k, VNull) ∉ entries) →
  userServices entries = Normal (omap custom_of entries).
Proof.
  intros Hnull. unfold userServices.
  rewrite filter_by_normal; cycle 1.
  { intros [k v] [Hty Hin]%list_elem_of_filter. simpl in *.
    destruct (typeof_object_cases v Hty) as [-> | [[r ->] | [o ->]]].
    - by destruct (Hnull k).
    - eauto.
    - destruct (checkServiceConfig_obj o) as (r & -> & _). eauto. }
  simpl. rewrite mapM_project; cycle 1.
  { intros [k v] [Hv [Hty Hin]%list_elem_of_filter]%list_elem_of_filter.
    simpl in *. destruct (typeof_object_cases v Hty) as [-> | [[r ->] | [o ->]]].
    - by destruct (Hnull k).
    - done.
    - eauto. }
  f_equal. clear Hnull. induction entries as [|[k v] l IH]; [done|].
  rewrite filter_cons. case_decide as Hty; simpl in Hty.
  - rewrite filter_cons.
    change (verdict (λ kv : string * value, checkServiceConfig kv.2) (k, v))
      with (accepted v).
    assert (custom_of (k, v)
            = if accepted v
              then match v with VObj o => Some (k, projection o) | _ => None end
              else None) as Hc.
    { unfold custom_of; simpl. destruct v; try done; by destruct (accepted _). }
    cbn [omap list_omap]. rewrite Hc. destruct (accepted v) eqn:Hacc.
    + rewrite decide_True by done. cbn [omap list_omap]. simpl.
      rewrite IH. done.
    + rewrite decide_False; [|rewrite Is_true_false; done]. exact IH.
  - cbn [omap list_omap]. unfold custom_of at 1. simpl.
    destruct v; try done; by destruct Hty.
Qed.

(** ** The composer: the two folds *)

Lemma foldl_merge_service_lookup (l : list (string * obj)) (acc : gmap string obj) k :
  NoDup l.*1 →
  foldl merge_service acc l !! k
  = overlay (acc !! k) ((list_to_map l : gmap string obj) !! k).
Proof.
  revert acc. induction l as [|[k0 s0] l IH]; intros acc Hnd; [done|].
  apply NoDup_cons in Hnd as [Hk0 Hnd]. simpl.
  rewrite IH by done.
  destruct (decide (k = k0)) as [->|Hne].
  - rewrite lookup_insert_eq.
    rewrite (not_elem_of_list_to_map_1 l k0) by done. simpl.
    destruct (acc !! k0); by rewrite lookup_insert_eq.
  - rewrite lookup_insert_ne by done.
    destruct (acc !! k0); by rewrite lookup_insert_ne.
Qed.

Lemma foldl_add_pattern_lookup (l : list (string * obj)) (acc : obj) k :
  NoDup l.*1 →
  foldl add_pattern acc l !! k
  = match (list_to_map l : gmap string obj) !! k with
    | Some s => Some (prop s "regex")
    | None => acc !! k
    end.
Proof.
  revert acc. induction l as [|[k0 s0] l IH]; intros acc Hnd; [done|].
  apply NoDup_cons in Hnd as [Hk0 Hnd]. simpl.
  rewrite IH by done.
  destruct (decide (k = k0)) as [->|Hne].
  - rewrite lookup_insert_eq.
    rewrite (not_elem_of_list_to_map_1 l k0) by done.
    by rewrite lookup_insert_eq.
  - by rewrite !lookup_insert_ne by done.
Qed.

Lemma base_entries_NoDup SERVICES enabled : NoDup (base_entries SERVICES enabled).*1.
Proof.
  unfold base_entries. case_bool_decide.
  - apply (sublist_NoDup _ (map_to_list SERVICES).*1);
      [apply NoDup_fst_map_to_list | apply fmap_sublist, sublist_filter].
  - apply NoDup_fst_map_to_list.
Qed.

Lemma list_to_map_base_entries SERVICES enabled :
  list_to_map (base_entries SERVICES enabled) = base_map SERVICES enabled.
Proof.
  unfold base_entries, base_map. case_bool_decide.
  - symmetry. apply map_filter_alt.
  - apply list_to_map_to_list.
Qed.

(** The registry folded from the default entries is the default table
    restricted to the allow-list. *)
Lemma base_registry_base_map SERVICES enabled :
  base_registry SERVICES enabled = base_map SERVICES enabled.
Proof.
  apply map_eq; intros k. unfold base_registry.
  rewrite foldl_merge_service_lookup by apply base_entries_NoDup.
  rewrite list_to_map_base_entries, lookup_empty. unfold overlay.
  by destruct (base_map _ _ !! k).
Qed.

Lemma custom_of_custom_rule kv : custom_of kv = (λ s, (kv.1, s)) <$> custom_rule kv.2.
Proof. unfold custom_of, custom_rule. destruct kv.2; try done. by destruct (accepted _). Qed.

Lemma omap_custom_of_fst (l : list (string * value)) k :
  k ∈ (omap custom_of l).*1 → k ∈ l.*1.
Proof.
  intros ([k' s] & -> & Hin)%list_elem_of_fmap.
  apply list_elem_of_omap in Hin as ([k'' v] & Hin & Hc).
  rewrite custom_of_custom_rule in Hc. simpl in Hc.
  destruct (custom_rule v); simplify_eq/=.
  apply list_elem_of_fmap. by exists (k', v).
Qed.

Lemma omap_custom_of_NoDup (l : list (string * value)) :
  NoDup l.*1 → NoDup (omap custom_of l).*1.
Proof.
  induction l as [|[k v] l IH]; intros Hnd; [constructor|].
  apply NoDup_cons in Hnd as [Hk Hnd]. cbn [omap list_omap].
  rewrite custom_of_custom_rule. simpl.
  destruct (custom_rule v); simpl; [|by apply IH].
  apply NoDup_cons; split; [|by apply IH].
  intros Hin. by apply Hk, omap_custom_of_fst.
Qed.

Lemma list_to_map_custom (m : obj) k :
  (list_to_map (omap custom_of (map_to_list m)) : gmap string obj) !! k
  = m !! k ≫= custom_rule.
Proof.
  apply option_eq; intros s.
  rewrite <- elem_of_list_to_map
    by apply omap_custom_of_NoDup, NoDup_fst_map_to_list.
  rewrite list_elem_of_omap, bind_Some. split.
  - intros ([k' v] & Hin%elem_of_map_to_list & Hc).
    rewrite custom_of_custom_rule in Hc. simpl in Hc.
    destruct (custom_rule v) eqn:Hv; simplify_eq/=. eauto.
  - intros (v & Hm & Hv). exists (k, v). split; [by apply elem_of_map_to_list|].
    rewrite custom_of_custom_rule. simpl. by rewrite Hv.
Qed.

Lemma foldl_append {A B} (f : A → B → A) (a : A) (l1 l2 : list B) :
  foldl f a (l1 ++ l2) = foldl f (foldl f a l1) l2.
Proof. revert a. induction l1 as [|x l1 IH]; intros a; [done|]. apply IH. Qed.

(** ** The composer: the effective registry *)

Lemma is_enabled_true v : is_enabled v ↔ v = VBool true.
Proof.
  unfold is_enabled. destruct v as [| |[]| | | | |]; simpl; split; done.
Qed.

Lemma elem_of_enabledServices (m : obj) k :
  k ∈ enabledServices (map_to_list m) ↔ m !! k = Some (VBool true).
Proof.
  unfold enabledServices. rewrite list_elem_of_fmap. split.
  - intros ([k' v] & -> & [Hv Hin]%list_elem_of_filter). simpl in *.
    apply is_enabled_true in Hv as ->. by apply elem_of_map_to_list.
  - intros Hk. exists (k, VBool true). split; [done|].
    apply list_elem_of_filter. split; [done | by apply elem_of_map_to_list].
Qed.

Lemma composed_lookup SERVICES enabled (m : obj) k :
  foldl merge_service ∅
    (base_entries SERVICES enabled ++ omap custom_of (map_to_list m)) !! k
  = overlay (base_map SERVICES enabled !! k) (m !! k ≫= custom_rule).
Proof.
  rewrite foldl_append.
  rewrite foldl_merge_service_lookup
    by apply omap_custom_of_NoDup, NoDup_fst_map_to_list.
  rewrite list_to_map_custom. f_equal.
  change (foldl merge_service ∅ (base_entries SERVICES enabled))
    with (base_registry SERVICES enabled).
  by rewrite base_registry_base_map.
Qed.

(** For a configuration whose [services] is a plain object without [null]
    entries, [prepare] returns, and the two tables are folded from the
    allowed default entries followed by the accepted custom rules. *)
Lemma prepare_services_obj SERVICES (c m : obj) :
  c !! "services" = Some (VObj m) →
  (∀ k, m !! k ≠ Some VNull) →
  let entries :=
    base_entries SERVICES (enabledServices (map_to_list m))
    ++ omap custom_of (map_to_list m) in
  prepare SERVICES (VObj c)
  = Normal {| services := foldl merge_service ∅ entries;
              patterns := foldl add_pattern ∅ entries |}.
Proof.
  intros Hc Hnull. unfold prepare. simpl. unfold prop. rewrite Hc. simpl.
  rewrite userServices_normal; [done|].
  intros k Hin%elem_of_map_to_list. by apply (Hnull k).
Qed.

Lemma project_regex v s : project v = Normal s → is_Some (s !! "regex").
Proof.
  unfold project. destruct v; simpl; try done; intros [= <-];
    rewrite lookup_insert_eq; eauto.
Qed.

Lemma userServices_regex entries user k s :
  userServices entries = Normal user → (k, s) ∈ user → is_Some (s !! "regex").
Proof.
  unfold userServices. destruct (filter_by _ _) as [checked|]; [simpl|done].
  revert user. induction checked as [|[k' v] l IH]; intros user; simpl.
  - intros [= <-] Hin. by apply elem_of_nil in Hin.
  - destruct (project v) as [s'|] eqn:Hp; [simpl|done].
    destruct (mapM _ l) as [rest|] eqn:Hrest; [simpl|done].
    intros [= <-] [[= -> ->] | Hin]%elem_of_cons.
    + by eapply project_regex.
    + by eapply IH.
Qed.

Lemma projects_base (l : list (string * obj)) :
  NoDup l.*1 → projects (foldl merge_service ∅ l) (foldl add_pattern ∅ l).
Proof.
  intros Hnd k. rewrite foldl_merge_service_lookup, foldl_add_pattern_lookup by done.
  rewrite lookup_empty. by destruct (list_to_map l !! k).
Qed.

Lemma projects_custom (user : list (string * obj)) reg pats :
  (∀ k s, (k, s) ∈ user → is_Some (s !! "regex")) →
  projects reg pats →
  projects (foldl merge_service reg user) (foldl add_pattern pats user).
Proof.
  revert reg pats. induction user as [|[k0 s0] user IH]; intros reg pats Hre Hp; [done|].
  simpl. apply IH; [intros; eapply Hre; by right|].
  destruct (Hre k0 s0) as [re Hs0]; [left|].
  intros k. destruct (decide (k = k0)) as [->|Hne].
  - rewrite lookup_insert_eq.
    destruct (reg !! k0); rewrite lookup_insert_eq; simpl; [|done].
    unfold Object_assign, prop. f_equal.
    by rewrite (lookup_union_l' s0) by (rewrite Hs0; eauto).
  - rewrite lookup_insert_ne by done.
    destruct (reg !! k0); rewrite lookup_insert_ne by done; apply Hp.
Qed.

(** Whenever [prepare] returns, both tables were folded from one list: the
    allowed default entries followed by projected custom rules. *)
Lemma prepare_shape SERVICES config st :
  prepare SERVICES config = Normal st →
  ∃ enabled user,
    (∀ k s, (k, s) ∈ user → is_Some (s !! "regex"))
    ∧ services st = foldl merge_service ∅ (base_entries SERVICES enabled ++ user)
    ∧ patterns st = foldl add_pattern ∅ (base_entries SERVICES enabled ++ user).
Proof.
  unfold prepare.
  destruct (get_prop _ "services") as [sv|]; [simpl|done].
  destruct (Object_entries _) as [entries|]; [simpl|done].
  destruct (userServices entries) as [user|] eqn:Hu; [simpl|done].
  intros [= <-]. exists (enabledServices entries), user. simpl.
  split; [|done]. intros k s. by eapply userServices_regex.
Qed.

(** Without a configuration the registry is the default table. *)
Lemma prepare_default (SERVICES : gmap string obj) :
  prepare SERVICES VUndefined
  = Normal {| services := SERVICES;
              patterns := (λ rule, prop rule "regex") <$> SERVICES |}.
Proof.
  unfold prepare. simpl. unfold prop. rewrite lookup_empty. simpl.
  rewrite map_to_list_empty. simpl. rewrite app_nil_r. do 2 f_equal.
  - apply (base_registry_base_map SERVICES []).
  - apply map_eq; intros k.
    rewrite foldl_add_pattern_lookup by apply base_entries_NoDup.
    rewrite list_to_map_base_entries, lookup_fmap, lookup_empty. unfold base_map.
    simpl. by destruct (SERVICES !! k).
Qed.

(** Well-formedness only looks at the six rule fields. *)
Lemma valid_rule_fields (o1 o2 : obj) :
  (∀ f, f ∈ rule_fields → prop o1 f = prop o2 f) → valid_rule o1 → valid_rule o2.
Proof.
  intros Heq [Hregex HembedUrl Hhtml Hid Hheight Hwidth].
  split; (rewrite <- Heq; [done | unfold rule_fields; repeat constructor]).
Qed.

Lemma prop_projection (o : obj) f : f ∈ rule_fields → prop (projection o) f = prop o f.
Proof.
  intros Hf. unfold rule_fields in Hf. unfold projection, prop at 1.
  repeat (apply elem_of_cons in Hf as [-> | Hf];
          [by rewrite ?lookup_insert_ne, lookup_insert_eq by done|]).
  by apply elem_of_nil in Hf.
Qed.

Lemma prop_Object_assign_projection (previous o : obj) f :
  f ∈ rule_fields → prop (Object_assign previous (projection o)) f = prop o f.
Proof.
  intros Hf. rewrite <- (prop_projection o f Hf).
  unfold Object_assign, prop at 1 2. rewrite lookup_union_l'; [done|].
  unfold rule_fields in Hf. unfold projection.
  repeat (apply elem_of_cons in Hf as [-> | Hf];
          [rewrite ?lookup_insert_ne, lookup_insert_eq by done; eauto|]).
  by apply elem_of_nil in Hf.
Qed.

(** The registry invariant: composed from well-formed defaults, every rule
    of the registry is well-formed. *)
Lemma prepare_registry_valid (SERVICES : gmap string obj) (c m : obj) st :
  (∀ k rule, SERVICES !! k = Some rule → valid_rule rule) →
  c !! "services" = Some (VObj m) →
  prepare SERVICES (VObj c) = Normal st →
  ∀ k rule, services st !! k = Some rule → valid_rule rule.
Proof.
  intros Hdefaults Hc Hp k rule Hk.
  assert (∀ k', m !! k' ≠ Some VNull) as Hnull.
  { intros k' Hk'. pose proof Hp as Hp'. revert Hp'.
    unfold prepare. simpl. unfold prop. rewrite Hc. simpl.
    unfold userServices.
    rewrite (filter_by_throw _ _ (k', VNull)); [done| |done|].
    - apply list_elem_of_filter. split; [done | by apply elem_of_map_to_list].
    - intros [k'' v] e. apply checkServiceConfig_throws. }
  rewrite (prepare_services_obj SERVICES c m Hc Hnull) in Hp.
  injection Hp as <-. simpl in Hk. rewrite composed_lookup in Hk.
  assert (∀ previous, base_map SERVICES (enabledServices (map_to_list m)) !! k
                      = Some previous → valid_rule previous) as Hbase.
  { intros previous. unfold base_map. case_bool_decide.
    - intros [Hs _]%map_lookup_filter_Some. by eapply Hdefaults.
    - by apply Hdefaults. }
  destruct (m !! k) as [v|]; simpl in Hk; [|by apply Hbase].
  destruct v as [| | | | | | |o]; simpl in Hk; try (by apply Hbase).
  rewrite accepted_obj in Hk. destruct (validb o) eqn:Hv; [|by apply Hbase].
  apply validb_valid_rule in Hv. simpl in Hk.
  destruct (base_map _ _ !! k) as [previous|]; injection Hk as <-.
  - apply (valid_rule_fields o); [|done]. intros f Hf.
    by rewrite prop_Object_assign_projection.
  - apply (valid_rule_fields o); [|done]. intros f Hf. by rewrite prop_projection.
Qed.

(** ** The resolver: substitution *)

Lemma get_substitution_dollar_free matched before after replacement :
  dollar_free replacement = true →
  get_substitution matched before after replacement = replacement.
Proof.
  induction replacement as [|c rest IH]; [done|]. simpl.
  intros [Hc Hrest]%andb_prop.
  destruct (Ascii.eqb c "$"); [done|]. by rewrite IH.
Qed.

Lemma replace_from_substitute token expand id before skip s :
  (∀ b a, expand b a = id) →
  replace_from token expand before skip s = substitute_from token id skip s.
Proof.
  intros Hexp. revert before skip.
  induction s as [|c s IH]; intros before skip; [done|].
  cbn [replace_from substitute_from]. destruct skip as [|n]; [|apply IH].
  destruct (String.prefix token (String c s)); by rewrite ?Hexp, IH.
Qed.

Lemma replace_remote_id_substitute template id :
  dollar_free id = true →
  replace_remote_id template id = substitute remote_id id template.
Proof.
  intros Hid. apply replace_from_substitute.
  intros b a. by apply get_substitution_dollar_free.
Qed.

(** A replacement without expandable [$] sequences is copied as it is. *)
Lemma get_substitution_expansion_free matched before after replacement :
  expansion_free replacement = true →
  get_substitution matched before after replacement = replacement.
Proof.
  induction replacement as [|c rest IH]; [done|].
  cbn [expansion_free get_substitution]. intros [Hc Hrest]%andb_prop.
  destruct (Ascii.eqb c "$"); [|by rewrite IH].
  destruct rest as [|d rest']; [done|].
  apply negb_true_iff in Hc.
  repeat (apply orb_false_elim in Hc as [Hc ?]).
  rewrite Hc. repeat match goal with H : Ascii.eqb d _ = false |- _ => rewrite H end.
  by rewrite IH.
Qed.

Lemma replace_remote_id_plain template id :
  expansion_free id = true →
  replace_remote_id template id = substitute remote_id id template.
Proof.
  intros Hid. apply replace_from_substitute.
  intros b a. by apply get_substitution_expansion_free.
Qed.

(** ** [exec] *)

Lemma search_exec_from (r : RegExp.syntax) (s : string) :
  RegExp.exec_from r s = (λ found, (found.1.1, found.1.2)) <$> RegExp.search r s.
Proof.
  induction s as [|c s IH]; cbn [RegExp.exec_from RegExp.search];
    unfold RegExp.match_at;
    destruct (RegExp.m r 0 _ _ _) as [[rest caps]|]; done.
Qed.

(** Without [g] and [y], [exec] is the leftmost match from the start and
    leaves the object as it was. *)
Lemma regexp_exec_plain (r : regexp) (s : string) :
  re_global r = false → re_sticky r = false →
  regexp_exec r s = (RegExp.exec (re_pattern r) s, r).
Proof.
  intros Hg Hy. unfold regexp_exec, RegExp.exec. rewrite Hg, Hy. simpl.
  rewrite search_exec_from.
  by destruct (RegExp.search (re_pattern r) s) as [[[matched caps] rest]|].
Qed.

(** An id that holds [$&] is not put in place as it is: the matched token
    comes back. *)
Lemma replace_remote_id_dollar :
  replace_remote_id "https://x/<%= remote_id %>" "$&" = "https://x/<%= remote_id %>".
Proof. reflexivity. Qed.

(** ** The accessors *)

Section Accessors.

Variable env : host.
Variable registry : gmap string obj.

Lemma get_data_idem b : get_data (get_data b).1 = get_data b.
Proof.
  destruct b as [d [v|]]; unfold get_data; simpl; [|done].
  by rewrite insert_insert_eq.
Qed.

Lemma get_data_element b : element (get_data b).1 = element b.
Proof. destruct b as [d [v|]]; done. Qed.

Lemma get_data_stored b : _data (get_data b).1 = refreshed b.
Proof. destruct b as [d [v|]]; done. Qed.

Lemma or_data_spec v k b :
  ∃ b1, or_data v k b = (b1, if to_boolean v then v else prop (refreshed b) k)
        ∧ element b1 = element b ∧ refreshed b1 = refreshed b.
Proof.
  unfold or_data. destruct (to_boolean v); [by exists b|].
  exists (get_data b).1. destruct (get_data b) as [b1 d] eqn:Hg.
  unfold refreshed. rewrite Hg. simpl. repeat split.
  - replace b1 with (get_data b).1 by (by rewrite Hg). apply get_data_element.
  - replace b1 with (get_data b).1 by (by rewrite Hg). by rewrite get_data_idem, Hg.
Qed.

Lemma render_stored b : _data (render env registry b).1 = refreshed b.
Proof.
  unfold render.
  pose proof (get_data_idem b) as Hi. pose proof (get_data_stored b) as Hs.
  unfold refreshed in *.
  destruct (get_data b) as [b1 d] eqn:Hg. simpl in *.
  destruct (negb _); [done|]. rewrite Hi.
  destruct (lookup_service _ _ _); [|done].
  rewrite Hi. by destruct (mount_frame _ _ _).
Qed.

Lemma refreshed_other b k : k ≠ "caption" → prop (refreshed b) k = prop (_data b) k.
Proof.
  intros Hk. unfold refreshed, get_data, prop.
  destruct (element b); simpl; [|done]. by rewrite lookup_insert_ne.
Qed.

Lemma refreshed_caption b :
  prop (refreshed b) "caption"
  = match element b with
    | Some v => VStr (default "" (input_html v))
    | None => prop (_data b) "caption"
    end.
Proof.
  unfold refreshed, get_data, prop.
  destruct (element b); simpl; [|done]. by rewrite lookup_insert_eq.
Qed.

(** The setter on an object: the record of lines 86-93 is stored, and a
    rendered block is rendered again. *)
Lemma set_data_object data b :
  instanceof_Object data = true →
  set_data env registry data b
  = let b' := {| _data := stored data b; element := element b |} in
    match element b with
    | None => (b', None)
    | Some _ =>
        match render env registry b' with
        | (b'', Throw e) => (b'', Some e)
        | (b'', Normal _) => (b'', None)
        end
    end.
Proof.
  intros Hobj. unfold set_data. rewrite Hobj. simpl.
  destruct (or_data_spec (read data "service") "service" b) as (b1 & -> & He1 & Hr1).
  destruct (or_data_spec (read data "source") "source" b1) as (b2 & -> & He2 & Hr2).
  destruct (or_data_spec (read data "embed") "embed" b2) as (b3 & -> & He3 & Hr3).
  destruct (or_data_spec (read data "width") "width" b3) as (b4 & -> & He4 & Hr4).
  destruct (or_data_spec (read data "height") "height" b4) as (b5 & -> & He5 & Hr5).
  destruct (or_data_spec
              (if is_undefined (read data "caption") then VStr ""
               else read data "caption") "caption" b5) as (b6 & -> & He6 & Hr6).
  simpl. rewrite Hr5, Hr4, Hr3, Hr2, Hr1 in *.
  rewrite He6, He5, He4, He3, He2, He1. reflexivity.
Qed.

Lemma set_data_stored data b :
  instanceof_Object data = true →
  _data (set_data env registry data b).1
  = match element b with
    | Some v => <["caption" := VStr (default "" (input_html v))]> (stored data b)
    | None => stored data b
    end.
Proof.
  intros Hobj. rewrite set_data_object by done. simpl.
  destruct (element b) as [v|] eqn:Hv; [|done].
  pose proof (render_stored {| _data := stored data b; element := Some v |}) as Hrs.
  destruct (render env registry _) as [b7 [view|e]]; simpl in *; by rewrite Hrs.
Qed.




End Accessors.

(** ** The validator's contract *)

(** On a plain object the validator returns the boolean [true] exactly on
    the well-formed rules. *)
Lemma checkServiceConfig_true_iff (o : obj) :
  checkServiceConfig (VObj o) = Normal (VBool true) ↔ valid_rule o.
Proof.
  rewrite <- validb_valid_rule.
  destruct (checkServiceConfig_obj o) as (r & Hr & Hb & Ht). rewrite Hr. split.
  - intros [= ->]. by rewrite <- Hb.
  - intros Hv. by rewrite (Ht Hv).
Qed.

(** On every other plain object it returns, without throwing, a falsy value. *)
Lemma checkServiceConfig_falsy (o : obj) :
  ¬ valid_rule o → ∃ r, checkServiceConfig (VObj o) = Normal r ∧ to_boolean r = false.
Proof.
  rewrite <- validb_valid_rule.
  destruct (checkServiceConfig_obj o) as (r & Hr & Hb & _).
  intros Hv. exists r. split; [done|]. rewrite Hb. by destruct (validb o).
Qed.

(** C1. For a rule object that lacks [regex] the validator returns the
    missing value itself, [undefined], and not the boolean [false]: the
    chain of [&&] yields its first falsy operand. *)
Theorem checkServiceConfig_empty_object_undefined :
  checkServiceConfig (VObj ∅) = Normal VUndefined
  ∧ checkServiceConfig (VObj ∅) ≠ Normal (VBool false).
Proof. split; [reflexivity | discriminate]. Qed.

(** ** The composer's contract *)

(** C2. A custom rule that gives no [height], laid over a default of the
    same name that has one, leaves the entry with [height] bound to
    [undefined]: the projection binds all six fields, and [Object.assign]
    copies the unset ones over the default's. *)
Theorem custom_rule_overwrites_unsupplied_height :
  let custom := rule_x "https://y/<%= remote_id %>" in
  let defaults : gmap string obj := <["a" := sized_rule]> ∅ in
  valid_rule custom
  ∧ custom !! "height" = None
  ∧ sized_rule !! "height" = Some (VNum (Finite 320))
  ∧ ∃ st entry,
      prepare defaults (config_of (<["a" := VObj custom]> ∅)) = Normal st
      ∧ services st !! "a" = Some entry
      ∧ entry !! "height" = Some VUndefined
      ∧ entry !! "embedUrl" = Some (VStr "https://y/<%= remote_id %>").
Proof.
  intros custom defaults. split; [by apply validb_valid_rule|].
  split; [reflexivity|]. split; [reflexivity|].
  destruct (prepare defaults (config_of (<["a" := VObj custom]> ∅))) as [st|e] eqn:Hp;
    [|by vm_compute in Hp].
  exists st. assert (services st !! "a" = Some (projection custom ∪ sized_rule)) as Hst.
  { vm_compute in Hp. injection Hp as <-. vm_compute. reflexivity. }
  eexists. split; [done|]. split; [exact Hst|]. split; vm_compute; reflexivity.
Qed.

(** C4. The entries of the user's [services] bound to the boolean [true]
    form the enable-list; the base registry is the default table restricted
    to the listed names when the list is non-empty and the whole default
    table when it is empty; with [{services: {A: true}}] the registry holds
    the default entry of [A] and nothing else. *)
Theorem enable_list_restricts_defaults (SERVICES : gmap string obj) (m : obj) :
  let enabled := enabledServices (map_to_list m) in
  (∀ k, k ∈ enabled ↔ m !! k = Some (VBool true))
  ∧ (∀ k, base_registry SERVICES enabled !! k
          = if decide (enabled = []) then SERVICES !! k
            else if decide (k ∈ enabled) then SERVICES !! k else None)
  ∧ (∀ A, ∃ st,
        prepare SERVICES (config_of {[ A := VBool true ]}) = Normal st
        ∧ ∀ k, services st !! k = if decide (k = A) then SERVICES !! A else None).
Proof.
  intros enabled. split; [apply elem_of_enabledServices|]. split.
  - intros k. rewrite base_registry_base_map. unfold base_map.
    destruct (decide (enabled = [])) as [->|Hne]; [done|].
    rewrite bool_decide_true by (by destruct enabled).
    rewrite map_lookup_filter. destruct (SERVICES !! k) as [rule|]; simpl.
    + destruct (decide (k ∈ enabled));
        [by rewrite option_guard_True | by rewrite option_guard_False].
    + by destruct (decide (k ∈ enabled)).
  - intros A. eexists. split.
    { apply prepare_services_obj; [apply lookup_insert_eq|].
      intros k [-> [=]]%lookup_singleton_Some. }
    simpl. intros k. rewrite composed_lookup.
    assert (({[A := VBool true]} : obj) !! k ≫= custom_rule = None) as ->.
    { destruct (decide (k = A)) as [->|Hne].
      - by rewrite lookup_singleton_eq.
      - by rewrite lookup_singleton_ne. }
    simpl. unfold base_map.
    assert (A ∈ enabledServices (map_to_list ({[A := VBool true]} : obj))) as HA.
    { apply elem_of_enabledServices, lookup_singleton_eq. }
    rewrite bool_decide_true; cycle 1.
    { intros Hlen%nil_length_inv. rewrite Hlen in HA. by apply elem_of_nil in HA. }
    rewrite map_lookup_filter.
    destruct (decide (k = A)) as [->|Hne].
    + destruct (SERVICES !! A); simpl; [|done]. by rewrite option_guard_True.
    + destruct (SERVICES !! k); simpl; [|done].
      rewrite option_guard_False; [done|].
      intros Hk%elem_of_enabledServices. simpl in Hk.
      by rewrite lookup_singleton_ne in Hk.
Qed.

(** C5, as stated, fails: with an enable flag next to an invalid custom
    rule the registry is not the default table. *)
Lemma invalid_rule_beside_enable_flag :
  let m : obj := <["a" := VBool true]> (<["bad" := VObj ∅]> ∅) in
  (∀ k v, m !! k = Some v → typeof v = TObject → accepted v = false)
  ∧ ∃ st, prepare two_defaults (config_of m) = Normal st
          ∧ services st ≠ two_defaults.
Proof.
  intros m. split.
  - intros k v Hkv Hty.
    destruct (decide (k = "a")) as [->|Ha].
    { vm_compute in Hkv. by injection Hkv as <-. }
    destruct (decide (k = "bad")) as [->|Hb].
    { vm_compute in Hkv. by injection Hkv as <-. }
    unfold m in Hkv. by rewrite !lookup_insert_ne, lookup_empty in Hkv.
  - destruct (prepare two_defaults (config_of m)) as [st|e] eqn:Hp;
      [|by vm_compute in Hp].
    exists st. split; [done|]. intros Heq.
    assert (services st !! "b" = None) as Hb.
    { vm_compute in Hp. injection Hp as <-. vm_compute. reflexivity. }
    rewrite Heq in Hb. by vm_compute in Hb.
Qed.

(** C5, amended. When every object-valued entry of the user's [services] is
    not [null] and fails validation, [prepare] returns without throwing and
    the registry is the base registry: the default table, restricted to the
    enable-list when there is one. No field of a rejected rule is merged. *)
Theorem invalid_custom_rules_dropped (SERVICES : gmap string obj) (c m : obj) :
  c !! "services" = Some (VObj m) →
  (∀ k v, m !! k = Some v → typeof v = TObject → v ≠ VNull ∧ accepted v = false) →
  ∃ st, prepare SERVICES (VObj c) = Normal st
        ∧ services st = base_map SERVICES (enabledServices (map_to_list m))
        ∧ (enabledServices (map_to_list m) = [] → services st = SERVICES).
Proof.
  intros Hc Hbad. eexists. split.
  { apply prepare_services_obj; [done|].
    intros k Hk. by destruct (Hbad k VNull Hk). }
  simpl. split.
  - apply map_eq; intros k. rewrite composed_lookup.
    assert (m !! k ≫= custom_rule = None) as ->; [|done].
    destruct (m !! k) as [v|] eqn:Hk; [simpl|done].
    destruct v; try done. simpl.
    by destruct (Hbad k _ Hk) as [_ ->].
  - intros Hnil. apply map_eq; intros k. rewrite composed_lookup, Hnil.
    assert (m !! k ≫= custom_rule = None) as ->; [|done].
    destruct (m !! k) as [v|] eqn:Hk; [simpl|done].
    destruct v; try done. simpl.
    by destruct (Hbad k _ Hk) as [_ ->].
Qed.

Lemma invalid_custom_rules_dropped_example :
  ∃ st, prepare two_defaults (config_of (<["bad" := VObj ∅]> ∅)) = Normal st
        ∧ services st = two_defaults.
Proof.
  destruct (invalid_custom_rules_dropped two_defaults
              (<["services" := VObj (<["bad" := VObj ∅]> ∅)]> ∅)
              (<["bad" := VObj ∅]> ∅)) as (st & Hp & _ & Hst).
  - reflexivity.
  - intros k v Hkv Hty.
    destruct (decide (k = "bad")) as [->|Hb].
    + vm_compute in Hkv. injection Hkv as <-. split; [discriminate | reflexivity].
    + rewrite lookup_insert_ne, lookup_empty in Hkv by done. discriminate.
  - exists st. split; [exact Hp | apply Hst; reflexivity].
Defined.

(** C8. After [prepare], the pattern table handed out through
    [pasteConfig] has the keys of the registry and binds each to the
    [regex] of that key's registry entry. *)
Theorem patterns_project_registry (SERVICES : gmap string obj) config st :
  prepare SERVICES config = Normal st →
  pasteConfig st !! "patterns" = Some (VObj (patterns st))
  ∧ dom (patterns st) = dom (services st)
  ∧ ∀ k, patterns st !! k = (λ rule, prop rule "regex") <$> services st !! k.
Proof.
  intros (enabled & user & Hre & Hs & Hp)%prepare_shape.
  assert (projects (services st) (patterns st)) as Hproj.
  { rewrite Hs, Hp, !foldl_append.
    apply projects_custom; [done|]. apply projects_base, base_entries_NoDup. }
  split; [apply lookup_singleton_eq|]. split; [|exact Hproj].
  apply set_eq; intros k. rewrite !elem_of_dom, (Hproj k), fmap_is_Some. done.
Qed.

Lemma patterns_project_registry_example :
  ∃ st, prepare two_defaults (config_of (<["a" := VObj (rule_x "u")]> ∅)) = Normal st
        ∧ dom (patterns st) = dom (services st)
        ∧ patterns st !! "a" = Some (VRegExp re_id).
Proof.
  destruct (prepare two_defaults (config_of (<["a" := VObj (rule_x "u")]> ∅)))
    as [st|e] eqn:Hp; [|vm_compute in Hp; discriminate].
  exists st. split; [reflexivity|].
  destruct (patterns_project_registry _ _ _ Hp) as (_ & Hdom & Hpat).
  split; [exact Hdom|]. rewrite Hpat.
  vm_compute in Hp. injection Hp as <-. vm_compute. reflexivity.
Defined.

(** C9. A [null] among the user's [services] makes [prepare] throw a
    [TypeError]: [typeof null] is ['object'], so the entry reaches the
    validator, whose destructuring of [null] throws. *)
Theorem prepare_null_service_throws (SERVICES : gmap string obj) (c m : obj) k :
  c !! "services" = Some (VObj m) →
  m !! k = Some VNull →
  typeof VNull = TObject
  ∧ checkServiceConfig VNull = Throw TypeError
  ∧ prepare SERVICES (VObj c) = Throw TypeError.
Proof.
  intros Hc Hk. split; [done|]. split; [done|].
  unfold prepare. simpl. unfold prop. rewrite Hc. simpl.
  unfold userServices.
  rewrite (filter_by_throw _ _ (k, VNull)); [done| |done|].
  - apply list_elem_of_filter. split; [done | by apply elem_of_map_to_list].
  - intros [k' v] e. apply checkServiceConfig_throws.
Qed.

Lemma prepare_null_service_throws_example :
  prepare two_defaults (config_of (<["a" := VNull]> ∅)) = Throw TypeError.
Proof.
  apply (prepare_null_service_throws two_defaults
           (<["services" := VObj (<["a" := VNull]> ∅)]> ∅) (<["a" := VNull]> ∅) "a");
    reflexivity.
Defined.

(** C10. A valid custom rule enters the registry through its projection:
    each of the six rule fields of the entry is the custom rule's value of
    that field, and every other field of the entry is whatever the base
    registry holds under that name, whatever else the custom rule carries. *)
Theorem custom_rule_projected (SERVICES : gmap string obj) (c m custom : obj) k :
  c !! "services" = Some (VObj m) →
  (∀ k', m !! k' ≠ Some VNull) →
  m !! k = Some (VObj custom) →
  valid_rule custom →
  dom (projection custom) = list_to_set rule_fields
  ∧ ∃ st entry,
      prepare SERVICES (VObj c) = Normal st
      ∧ services st !! k = Some entry
      ∧ entry = match base_map SERVICES (enabledServices (map_to_list m)) !! k with
                | Some previous => Object_assign previous (projection custom)
                | None => projection custom
                end
      ∧ (∀ f, f ∈ rule_fields → entry !! f = Some (prop custom f))
      ∧ (∀ f, f ∉ rule_fields →
           entry !! f
           = base_map SERVICES (enabledServices (map_to_list m)) !! k ≫= (.!! f)).
Proof.
  intros Hc Hnull Hk Hvalid.
  assert (∀ f, f ∈ rule_fields → projection custom !! f = Some (prop custom f)) as Hin.
  { intros f Hf. unfold rule_fields in Hf. unfold projection.
    repeat (apply elem_of_cons in Hf as [-> | Hf];
            [by rewrite ?lookup_insert_ne, lookup_insert_eq by done|]).
    by apply elem_of_nil in Hf. }
  assert (∀ f, f ∉ rule_fields → projection custom !! f = None) as Hout.
  { intros f Hf. unfold rule_fields in Hf. unfold projection.
    rewrite !not_elem_of_cons in Hf. destruct Hf as (?&?&?&?&?&?&_).
    by rewrite !lookup_insert_ne, lookup_empty by done. }
  split.
  { unfold projection, rule_fields. rewrite !dom_insert_L, dom_empty_L. simpl.
    set_solver. }
  eexists _, _. split; [by apply prepare_services_obj|]. simpl.
  split.
  { rewrite composed_lookup, Hk. simpl.
    rewrite accepted_obj. apply validb_valid_rule in Hvalid. rewrite Hvalid.
    simpl. reflexivity. }
  split; [done|].
  destruct (base_map _ _ !! k) as [previous|]; simpl.
  - unfold Object_assign. split; intros f Hf.
    + rewrite lookup_union_l'; [by apply Hin | rewrite Hin; eauto].
    + by rewrite lookup_union_r by (by apply Hout).
  - split; [exact Hin | exact Hout].
Qed.

Lemma custom_rule_projected_example :
  ∃ st entry,
    prepare two_defaults
      (config_of (<["a" := VObj (<["extra" := VStr "x"]> (rule_x "u"))]> ∅)) = Normal st
    ∧ services st !! "a" = Some entry
    ∧ entry !! "embedUrl" = Some (VStr "u")
    ∧ entry !! "extra" = None.
Proof.
  destruct (custom_rule_projected two_defaults
              (<["services" := VObj (<["a" := VObj (<["extra" := VStr "x"]> (rule_x "u"))]> ∅)]> ∅)
              (<["a" := VObj (<["extra" := VStr "x"]> (rule_x "u"))]> ∅)
              (<["extra" := VStr "x"]> (rule_x "u")) "a")
    as (_ & st & entry & Hp & Hst & _ & Hin & Hout).
  - reflexivity.
  - intros k' Hk'. destruct (decide (k' = "a")) as [->|Hne].
    + vm_compute in Hk'. discriminate.
    + rewrite lookup_insert_ne, lookup_empty in Hk' by done. discriminate.
  - reflexivity.
  - apply validb_valid_rule. reflexivity.
  - exists st, entry. split; [exact Hp|]. split; [exact Hst|]. split.
    + rewrite (Hin "embedUrl"); [reflexivity|]. vm_compute. do 1 right. left.
    + rewrite (Hout "extra"); [vm_compute; reflexivity|].
      unfold rule_fields. rewrite !not_elem_of_cons. repeat split; try discriminate.
      apply not_elem_of_nil.
Defined.

(** ** The resolver's contract *)

(** C3, as stated, fails: the token [<id>] is not the placeholder, so the
    template comes back unchanged. *)
Lemma resolve_leaves_other_token :
  ∃ data,
    resolve (<["x" := rule_x "https://x/<id>"]> ∅) "x" "http://a?id=abc123"
    = Normal data
    ∧ data !! "embed" = Some (VStr "https://x/<id>")
    ∧ data !! "embed" ≠ Some (VStr "https://x/abc123").
Proof.
  eexists. split; [vm_compute; reflexivity|].
  split; [vm_compute; reflexivity | vm_compute; discriminate].
Qed.

(** C3, amended. For a registry entry whose [regex] matches the address,
    the resource id is what the rule's [id] returns on the capture groups,
    or the first capture group when the rule has no [id]; the record
    [{service, source, embed, width, height}], with [embed] the result of
    the replacement in the rule's [embedUrl], is what [performServices]
    assigns to the block's [data]; and when the id holds none of [$$],
    [$&], [$`], [$'], [embed] is the [embedUrl] with the id put in place of
    every occurrence of the token [<%= remote_id %>]. *)
Theorem resolve_descriptor (registry : gmap string obj) service url
    (rule : obj) re template full groups remote :
  registry !! service = Some rule →
  prop rule "regex" = VRegExp re →
  prop rule "embedUrl" = VStr template →
  (prop rule "id" = VUndefined ∨ ∃ f, prop rule "id" = VFun f) →
  (regexp_exec re url).1 = Some (full, groups) →
  resource_id rule groups = Normal remote →
  let id := id_to_string remote in
  let embed := replace_remote_id template id in
  resolve registry service url = Normal (descriptor service url embed rule)
  ∧ (∀ env b,
       performServices env registry service url b
       = set_data env registry (VObj (descriptor service url embed rule)) b)
  ∧ (expansion_free id = true → embed = substitute remote_id id template).
Proof.
  intros Hrule Hre Htemplate Hid Hexec Hremote id embed.
  assert (resolve registry service url = Normal (descriptor service url embed rule))
    as Hresolve.
  { unfold resolve. rewrite Hrule. simpl. rewrite Hre, Htemplate, Hexec.
    unfold embed, id, descriptor, resource_id in *.
    destruct Hid as [Hid | [f Hid]]; rewrite Hid in *; simpl.
    - injection Hremote as <-. done.
    - rewrite Hremote. done. }
  split; [exact Hresolve|]. split.
  - intros env b. unfold performServices. by rewrite Hresolve.
  - intros Hfree. by apply replace_remote_id_plain.
Qed.

Lemma resolve_descriptor_example :
  resolve (<["x" := rule_x "https://x/<%= remote_id %>"]> ∅) "x" "http://a?id=abc123"
  = Normal (descriptor "x" "http://a?id=abc123" "https://x/abc123"
              (rule_x "https://x/<%= remote_id %>")).
Proof.
  apply (resolve_descriptor (<["x" := rule_x "https://x/<%= remote_id %>"]> ∅)
           "x" "http://a?id=abc123" (rule_x "https://x/<%= remote_id %>") re_id
           "https://x/<%= remote_id %>" "id=abc123" [Some "abc123"] (Some "abc123")).
  - reflexivity.
  - reflexivity.
  - reflexivity.
  - left. reflexivity.
  - vm_compute. reflexivity.
  - reflexivity.
Defined.



(** A pattern with the [g] flag resolves an address once and, its
    [lastIndex] moved past the match, throws on the same address the next
    time. *)
Lemma resolve_global_twice :
  let rule : obj :=
    <["regex" := VRegExp {| re_source := "id=(\w+)"; re_pattern := re_pattern re_id;
                            re_global := true; re_sticky := false;
                            re_lastIndex := 0 |}]>
      (rule_x "https://x/<%= remote_id %>") in
  let registry : gmap string obj := <["x" := rule]> ∅ in
  is_throw (resolve registry "x" "http://a?id=abc123") = false
  ∧ resolve (services_after registry "x" "http://a?id=abc123") "x" "http://a?id=abc123"
    = Throw TypeError.
Proof. split; vm_compute; reflexivity. Qed.


Lemma two_defaults_valid k rule : two_defaults !! k = Some rule → valid_rule rule.
Proof.
  intros Hk. apply validb_valid_rule.
  destruct (decide (k = "a")) as [->|Ha].
  { vm_compute in Hk. injection Hk as <-. reflexivity. }
  destruct (decide (k = "b")) as [->|Hb].
  { vm_compute in Hk. injection Hk as <-. reflexivity. }
  unfold two_defaults in Hk. rewrite !lookup_insert_ne, lookup_empty in Hk by done.
  discriminate.
Qed.


(** ** The data setter's contract *)

(** C7, as stated, fails: a supplied key whose value is falsy is not
    written, the previous value stays. *)
Lemma set_data_ignores_falsy_width :
  let supplied : obj := <["width" := VNum (Finite 0)]> ∅ in
  let after := (set_data sample_host two_defaults (VObj supplied) sample_block).1 in
  _data after !! "width" = Some (VNum (Finite 580))
  ∧ partial_update (_data sample_block) supplied !! "width" = Some (VNum (Finite 0))
  ∧ _data after ≠ partial_update (_data sample_block) supplied.
Proof.
  intros supplied after.
  assert (_data after !! "width" = Some (VNum (Finite 580))) as Hafter
    by (vm_compute; reflexivity).
  assert (partial_update (_data sample_block) supplied !! "width"
          = Some (VNum (Finite 0))) as Hexpected by (vm_compute; reflexivity).
  split; [exact Hafter|]. split; [exact Hexpected|].
  intros Heq. rewrite Heq, Hexpected in Hafter. discriminate.
Qed.

(** C7, amended. Assigning an object to [data] stores a record of exactly
    the six fields. Each of [service], [source], [embed], [width] and
    [height] takes the supplied value when that value is truthy and keeps
    the previous one otherwise. On a block without a rendered view,
    [caption] takes the supplied value when truthy, else the previous one
    when truthy, else the empty string; on a rendered block it is read back
    from the view. Assigning anything that is not an object throws and
    leaves the block as it was. *)
Theorem set_data_fields (env : host) (registry : gmap string obj) data b :
  (instanceof_Object data = true →
   let after := (set_data env registry data b).1 in
   dom (_data after)
   = list_to_set ["service"; "source"; "embed"; "width"; "height"; "caption"]
   ∧ (∀ k, k ∈ ["service"; "source"; "embed"; "width"; "height"] →
        _data after !! k
        = Some (if to_boolean (read data k) then read data k else prop (_data b) k))
   ∧ _data after !! "caption"
     = Some (match element b with
             | Some v => VStr (default "" (input_html v))
             | None =>
                 let caption :=
                   if is_undefined (read data "caption") then VStr ""
                   else read data "caption" in
                 js_or (js_or caption (prop (_data b) "caption")) (VStr "")
             end))
  ∧ (instanceof_Object data = false →
     set_data env registry data b
     = (b, Some (Error "Embed Tool data should be object"))).
Proof.
  split; [|by intros Hobj; unfold set_data; rewrite Hobj].
  intros Hobj after. unfold after. rewrite set_data_stored by done.
  assert (∀ k, k ∈ ["service"; "source"; "embed"; "width"; "height"] →
            stored data b !! k
            = Some (if to_boolean (read data k) then read data k
                    else prop (_data b) k)) as Hkeep.
  { intros k Hk. unfold stored, embed_data.
    repeat (apply elem_of_cons in Hk as [-> | Hk];
            [rewrite ?lookup_insert_ne, lookup_insert_eq by done;
             by rewrite refreshed_other by done|]).
    by apply elem_of_nil in Hk. }
  assert (dom (stored data b)
          = list_to_set ["service"; "source"; "embed"; "width"; "height"; "caption"])
    as Hdom.
  { unfold stored, embed_data. rewrite !dom_insert_L, dom_empty_L. simpl. set_solver. }
  destruct (element b) as [v|] eqn:Hv.
  - split; [rewrite dom_insert_L, Hdom; simpl; set_solver|].
    split; [|by rewrite lookup_insert_eq].
    intros k Hk. rewrite lookup_insert_ne; [by apply Hkeep|].
    intros <-. repeat (apply elem_of_cons in Hk as [[=] | Hk]).
    by apply elem_of_nil in Hk.
  - split; [exact Hdom|]. split; [exact Hkeep|].
    unfold stored, embed_data. rewrite !lookup_insert_ne, lookup_insert_eq by done.
    rewrite refreshed_caption, Hv. reflexivity.
Qed.

Lemma set_data_fields_example :
  _data (set_data sample_host two_defaults
           (VObj (<["width" := VNum (Finite 0)]> (<["embed" := VStr "e"]> ∅)))
           sample_block).1 !! "embed" = Some (VStr "e")
  ∧ set_data sample_host two_defaults VNull sample_block
    = (sample_block, Some (Error "Embed Tool data should be object")).
Proof.
  destruct (set_data_fields sample_host two_defaults
              (VObj (<["width" := VNum (Finite 0)]> (<["embed" := VStr "e"]> ∅)))
              sample_block) as [Hobj _].
  destruct (set_data_fields sample_host two_defaults VNull sample_block) as [_ Hnull].
  split.
  - destruct (Hobj eq_refl) as (_ & Hkeep & _).
    rewrite (Hkeep "embed"); [reflexivity|]. do 2 right. left.
  - apply Hnull. reflexivity.
Defined.

(** * Further properties *)

(** ** The validator *)


(** ** The composer *)

Lemma has_null_false (entries : list (string * value)) :
  has_null entries = false → ∀ k, (k, VNull) ∉ entries.
Proof.
  unfold has_null. induction entries as [|[k' v] l IH]; simpl.
  - intros _ k Hin. by apply elem_of_nil in Hin.
  - intros [Hv Hl]%orb_false_elim k [[= <- <-] | Hin]%elem_of_cons; [done|].
    by apply (IH Hl k).
Qed.

Lemma has_null_true (entries : list (string * value)) :
  has_null entries = true → ∃ k, (k, VNull) ∈ entries.
Proof.
  unfold has_null. induction entries as [|[k' v] l IH]; simpl; [done|].
  intros [Hv | Hl]%orb_prop.
  - destruct v; try done. exists k'. left.
  - destruct (IH Hl) as [k Hk]. exists k. by right.
Qed.

Lemma userServices_null (entries : list (string * value)) k :
  (k, VNull) ∈ entries → userServices entries = Throw TypeError.
Proof.
  intros Hin. unfold userServices.
  rewrite (filter_by_throw _ _ (k, VNull)); [done| |done|].
  - by apply list_elem_of_filter.
  - intros [k' v] e. apply checkServiceConfig_throws.
Qed.

(** [userServices] throws exactly when an entry is [null]. *)
Lemma userServices_throws_iff (entries : list (string * value)) :
  is_throw (userServices entries) = true ↔ ∃ k, (k, VNull) ∈ entries.
Proof.
  destruct (has_null entries) eqn:Hn.
  - apply has_null_true in Hn as [k Hk]. rewrite (userServices_null _ k Hk).
    split; [eauto | done].
  - pose proof (has_null_false _ Hn) as Hnone.
    rewrite userServices_normal by done. split; [done|].
    intros [k Hk]. by destruct (Hnone k).
Qed.

(** What [prepare] does once the entries of [services] are known. *)
Lemma prepare_entries SERVICES config sv entries :
  get_prop (if is_undefined config then VObj ∅ else config) "services" = Normal sv →
  Object_entries (if is_undefined sv then VObj ∅ else sv) = Normal entries →
  prepare SERVICES config
  = user ← userServices entries;
    mret {| services := foldl merge_service ∅
                          (base_entries SERVICES (enabledServices entries) ++ user);
            patterns := foldl add_pattern ∅
                          (base_entries SERVICES (enabledServices entries) ++ user) |}.
Proof. intros Hsv He. unfold prepare. rewrite Hsv. simpl. rewrite He. done. Qed.

Lemma prepare_no_entries SERVICES config sv :
  get_prop (if is_undefined config then VObj ∅ else config) "services" = Normal sv →
  Object_entries (if is_undefined sv then VObj ∅ else sv) = Normal [] →
  prepare SERVICES config
  = Normal {| services := SERVICES;
              patterns := (λ rule, prop rule "regex") <$> SERVICES |}.
Proof.
  intros Hsv He. rewrite (prepare_entries _ _ _ _ Hsv He). simpl.
  rewrite app_nil_r. do 2 f_equal.
  - apply (base_registry_base_map SERVICES []).
  - apply map_eq; intros k.
    rewrite foldl_add_pattern_lookup by apply base_entries_NoDup.
    rewrite list_to_map_base_entries, lookup_fmap. unfold base_map.
    simpl. by destruct (SERVICES !! k).
Qed.

(** X2. Without a configuration, or with one that has no [services], the
    registry is the default table and the pattern table binds every default
    name to its rule's [regex]. *)
Theorem prepare_without_services (SERVICES : gmap string obj) config :
  config = VUndefined ∨ (∃ c, config = VObj c ∧ prop c "services" = VUndefined) →
  prepare SERVICES config
  = Normal {| services := SERVICES;
              patterns := (λ rule, prop rule "regex") <$> SERVICES |}.
Proof.
  intros [-> | (c & -> & Hc)].
  - apply (prepare_no_entries _ _ VUndefined); [done|].
    simpl. by rewrite map_to_list_empty.
  - apply (prepare_no_entries _ _ VUndefined); [by simpl; rewrite Hc|].
    simpl. by rewrite map_to_list_empty.
Qed.

Lemma prepare_without_services_example :
  prepare two_defaults (VObj ∅)
  = Normal {| services := two_defaults;
              patterns := (λ rule, prop rule "regex") <$> two_defaults |}.
Proof.
  apply prepare_without_services. right. exists ∅. split; reflexivity.
Defined.

Lemma string_entries_no_null (s : string) k :
  (k, VNull) ∉ imap (λ i c, (pretty i, VStr (String c ""))) (list_ascii_of_string s).
Proof. intros (i & c & [=] & _)%elem_of_lookup_imap. Qed.

(** X4. [prepare] throws exactly when the configuration is [null], or its
    [services] is [null], or its [services] is an object with a [null]
    entry. *)
Theorem prepare_throws_iff (SERVICES : gmap string obj) config :
  is_throw (prepare SERVICES config) = true
  ↔ config = VNull
    ∨ ∃ c, config = VObj c
           ∧ (prop c "services" = VNull
              ∨ ∃ m k, prop c "services" = VObj m ∧ m !! k = Some VNull).
Proof.
  assert (∀ cfg, (∀ c, cfg ≠ VObj c) → cfg ≠ VNull →
            is_throw (prepare SERVICES cfg) = false) as Hplain.
  { intros cfg Hobj Hnull.
    rewrite (prepare_no_entries SERVICES cfg VUndefined); [done| |].
    - destruct cfg; try done. by destruct (Hobj props).
    - simpl. by rewrite map_to_list_empty. }
  destruct config as [| | | | | | |c];
    try (rewrite Hplain by done; split; [done | intros [|(c & [=] & _)]; done]).
  { split; [by left | done]. }
  assert (∀ entries sv, prop c "services" = sv →
            Object_entries (if is_undefined sv then VObj ∅ else sv) = Normal entries →
            is_throw (prepare SERVICES (VObj c)) = true
            ↔ ∃ k, (k, VNull) ∈ entries) as Hent.
  { intros entries sv Hsv He.
    rewrite (prepare_entries SERVICES (VObj c) sv entries); [|by simpl; rewrite Hsv|done].
    rewrite <- userServices_throws_iff.
    by destruct (userServices entries). }
  destruct (prop c "services") as [| | | |s| | |m] eqn:Hsv.
  - rewrite (Hent [] VUndefined) by (by simpl; rewrite ?map_to_list_empty).
    split; [by intros [k Hk%elem_of_nil] |].
    intros [[=] | (c' & [= <-] & [Hn | (m & k & Hm & _)])]; congruence.
  - split; [|by unfold prepare; simpl; rewrite Hsv].
    intros _. right. exists c. split; [done|]. by left.
  - rewrite (Hent [] (VBool b)) by done.
    split; [by intros [k Hk%elem_of_nil] |].
    intros [[=] | (c' & [= <-] & [Hn | (m & k & Hm & _)])]; congruence.
  - rewrite (Hent [] (VNum n)) by done.
    split; [by intros [k Hk%elem_of_nil] |].
    intros [[=] | (c' & [= <-] & [Hn | (m & k & Hm & _)])]; congruence.
  - rewrite (Hent _ (VStr s) eq_refl eq_refl).
    split; [by intros [k Hk%string_entries_no_null] |].
    intros [[=] | (c' & [= <-] & [Hn | (m & k & Hm & _)])]; congruence.
  - rewrite (Hent [] (VRegExp r)) by done.
    split; [by intros [k Hk%elem_of_nil] |].
    intros [[=] | (c' & [= <-] & [Hn | (m & k & Hm & _)])]; congruence.
  - rewrite (Hent [] (VFun f)) by done.
    split; [by intros [k Hk%elem_of_nil] |].
    intros [[=] | (c' & [= <-] & [Hn | (m & k & Hm & _)])]; congruence.
  - rewrite (Hent _ (VObj m) eq_refl eq_refl). split.
    + intros [k Hk%elem_of_map_to_list]. right. exists c. split; [done|].
      right. by exists m, k.
    + intros [[=] | (c' & [= <-] & [Hn | (m' & k & Hm & Hk)])]; [congruence|].
      rewrite Hsv in Hm. injection Hm as <-. exists k. by apply elem_of_map_to_list.
Qed.

Lemma enabledServices_nil (m : obj) :
  enabledServices (map_to_list m) = [] ↔ ∀ k, m !! k ≠ Some (VBool true).
Proof.
  split.
  - intros Hnil k Hk%elem_of_enabledServices. rewrite Hnil in Hk.
    by apply elem_of_nil in Hk.
  - intros Hnone. destruct (enabledServices (map_to_list m)) as [|k l] eqn:He; [done|].
    destruct (Hnone k). apply elem_of_enabledServices. rewrite He. left.
Qed.

Lemma base_map_lookup (SERVICES : gmap string obj) (enabled : list string) k :
  base_map SERVICES enabled !! k
  = if decide (enabled = []) then SERVICES !! k
    else if decide (k ∈ enabled) then SERVICES !! k else None.
Proof.
  unfold base_map. destruct (decide (enabled = [])) as [->|Hne]; [done|].
  rewrite bool_decide_true by (by destruct enabled).
  rewrite map_lookup_filter. simpl.
  destruct (SERVICES !! k) as [rule|]; simpl; [|by destruct (decide _)].
  destruct (decide (k ∈ enabled)) as [Hk|Hk].
  - by rewrite option_guard_True.
  - by rewrite option_guard_False.
Qed.

(** When [prepare] returns on an object-valued [services], that object has
    no [null] entry, the registry is the overlay of the accepted custom
    rules on the allowed defaults, and the pattern table projects it. *)
Lemma prepare_normal_lookup (SERVICES : gmap string obj) (c m : obj) st :
  c !! "services" = Some (VObj m) →
  prepare SERVICES (VObj c) = Normal st →
  (∀ k, m !! k ≠ Some VNull)
  ∧ (∀ k, services st !! k
          = overlay (base_map SERVICES (enabledServices (map_to_list m)) !! k)
              (m !! k ≫= custom_rule))
  ∧ projects (services st) (patterns st).
Proof.
  intros Hc Hp.
  assert (∀ k, m !! k ≠ Some VNull) as Hnull.
  { intros k Hk%elem_of_map_to_list.
    rewrite (prepare_entries SERVICES (VObj c) (VObj m) (map_to_list m)) in Hp;
      [|by simpl; unfold prop; rewrite Hc|done].
    by rewrite (userServices_null _ k Hk) in Hp. }
  split; [done|].
  pose proof Hp as Hp'.
  rewrite (prepare_services_obj SERVICES c m Hc Hnull) in Hp'.
  injection Hp' as <-. simpl. split; [intros k; apply composed_lookup|].
  rewrite !foldl_append. apply projects_custom; [|apply projects_base, base_entries_NoDup].
  intros k s [kv [Hin Hcu]]%list_elem_of_omap.
  rewrite custom_of_custom_rule in Hcu. destruct kv as [k' v]. simpl in Hcu.
  destruct v as [| | | | | | |o]; try done. simpl in Hcu.
  destruct (accepted (VObj o)); simplify_eq/=.
  unfold projection. rewrite lookup_insert_eq. eauto.
Qed.

(** X3. Composed from well-formed defaults, every rule of the registry is
    well-formed: a regular expression as [regex], non-empty strings as
    [embedUrl] and [html], a function or nothing as [id], finite numbers
    or nothing as [height] and [width]. *)
Theorem registry_rules_valid (SERVICES : gmap string obj) (c m : obj) st k rule :
  (∀ k rule, SERVICES !! k = Some rule → valid_rule rule) →
  c !! "services" = Some (VObj m) →
  prepare SERVICES (VObj c) = Normal st →
  services st !! k = Some rule →
  valid_rule rule.
Proof. intros Hvalid Hc Hp. by apply (prepare_registry_valid SERVICES c m st). Qed.

Lemma registry_rules_valid_example :
  ∃ st rule,
    prepare two_defaults (config_of (<["c" := VObj (rule_x "u")]> ∅)) = Normal st
    ∧ services st !! "c" = Some rule ∧ valid_rule rule.
Proof.
  destruct (prepare two_defaults (config_of (<["c" := VObj (rule_x "u")]> ∅)))
    as [st|e] eqn:Hp; [|vm_compute in Hp; discriminate].
  assert (services st !! "c" = Some (projection (rule_x "u"))) as Hk.
  { vm_compute in Hp. injection Hp as <-. vm_compute. reflexivity. }
  exists st, (projection (rule_x "u")). split; [reflexivity|]. split; [exact Hk|].
  apply (registry_rules_valid two_defaults
           (<["services" := VObj (<["c" := VObj (rule_x "u")]> ∅)]> ∅)
           (<["c" := VObj (rule_x "u")]> ∅) st "c" _ two_defaults_valid);
    [reflexivity | exact Hp | exact Hk].
Defined.

(** X5. Among the names other than [__proto__] (which [merge_service]
    does not model), the names of the registry are the default names that
    pass the allow-list (all of them when no entry is [true]) together
    with the names the user binds to a well-formed rule object; no other
    such name gets a registry entry. *)
Theorem registry_keys (SERVICES : gmap string obj) (c m : obj) st k :
  c !! "services" = Some (VObj m) →
  prepare SERVICES (VObj c) = Normal st →
  k ≠ "__proto__" →
  k ∈ dom (services st)
  ↔ (is_Some (SERVICES !! k)
     ∧ ((∀ k', m !! k' ≠ Some (VBool true)) ∨ m !! k = Some (VBool true)))
    ∨ (∃ o, m !! k = Some (VObj o) ∧ valid_rule o).
Proof.
  intros Hc Hp _. destruct (prepare_normal_lookup _ _ _ _ Hc Hp) as (_ & Hst & _).
  rewrite elem_of_dom, Hst, base_map_lookup.
  assert (is_Some (m !! k ≫= custom_rule) ↔ ∃ o, m !! k = Some (VObj o) ∧ valid_rule o)
    as Hcustom.
  { split.
    - intros [s Hs]. apply bind_Some in Hs as (v & Hv & Hs).
      destruct v as [| | | | | | |o]; try done. simpl in Hs.
      rewrite accepted_obj in Hs. destruct (validb o) eqn:Hval; [|done].
      exists o. split; [done | by apply validb_valid_rule].
    - intros (o & -> & Hval%validb_valid_rule). simpl.
      rewrite accepted_obj, Hval. eauto. }
  destruct (m !! k ≫= custom_rule) as [s|] eqn:Hcu; simpl.
  - split; [|eauto]. intros _. right. apply Hcustom. eauto.
  - assert (¬ ∃ o, m !! k = Some (VObj o) ∧ valid_rule o) as Hno.
    { intros Hex. apply Hcustom in Hex as [? ?]. done. }
    destruct (decide (enabledServices (map_to_list m) = [])) as [Hnil|Hne].
    + pose proof (proj1 (enabledServices_nil m) Hnil) as Hnone.
      split; [intros; left; eauto|].
      intros [[Hs _] | Hex]; [done | by destruct Hno].
    + rewrite enabledServices_nil in Hne.
      destruct (decide (k ∈ enabledServices (map_to_list m))) as [Hk|Hk];
        rewrite elem_of_enabledServices in Hk.
      * split; [intros; left; eauto|]. intros [[Hs _] | Hex]; [done | by destruct Hno].
      * split; [by intros [? ?]|].
        intros [[_ [Hnone | Htrue]] | Hex]; [done | done | by destruct Hno].
Qed.

Lemma registry_keys_example :
  ∃ st, prepare two_defaults
          (config_of (<["a" := VBool true]> (<["c" := VObj (rule_x "u")]> ∅))) = Normal st
        ∧ "c" ∈ dom (services st).
Proof.
  destruct (prepare two_defaults
              (config_of (<["a" := VBool true]> (<["c" := VObj (rule_x "u")]> ∅))))
    as [st|e] eqn:Hp; [|vm_compute in Hp; discriminate].
  exists st. split; [reflexivity|].
  apply (registry_keys two_defaults
           (<["services" := VObj (<["a" := VBool true]> (<["c" := VObj (rule_x "u")]> ∅))]> ∅)
           (<["a" := VBool true]> (<["c" := VObj (rule_x "u")]> ∅)) st "c");
    [reflexivity | exact Hp | discriminate |].
  right. exists (rule_x "u"). split; [reflexivity|].
  apply validb_valid_rule. reflexivity.
Defined.

(** X6. Only [true] and rule objects count: when no entry of the user's
    [services] is [true], a default whose name the user binds to anything
    that is not a well-formed rule object ([false], a number, a string, an
    invalid object) stays in the registry as it is. In particular [false]
    does not switch a service off. *)
Theorem other_values_ignored (SERVICES : gmap string obj) (c m : obj) st k :
  c !! "services" = Some (VObj m) →
  prepare SERVICES (VObj c) = Normal st →
  (∀ k', m !! k' ≠ Some (VBool true)) →
  (∀ o, m !! k = Some (VObj o) → ¬ valid_rule o) →
  services st !! k = SERVICES !! k.
Proof.
  intros Hc Hp Hnone Hk. apply enabledServices_nil in Hnone.
  destruct (prepare_normal_lookup _ _ _ _ Hc Hp) as (_ & Hst & _).
  rewrite Hst, Hnone. unfold base_map. simpl.
  destruct (m !! k) as [v|] eqn:Hv; [simpl|done].
  destruct v as [| | | | | | |o]; try done. simpl.
  rewrite accepted_obj. destruct (validb o) eqn:Hval; [|done].
  apply validb_valid_rule in Hval. by destruct (Hk o).
Qed.

Lemma other_values_ignored_example :
  ∃ st, prepare two_defaults (config_of (<["a" := VBool false]> ∅)) = Normal st
        ∧ services st !! "a" = Some sized_rule.
Proof.
  destruct (prepare two_defaults (config_of (<["a" := VBool false]> ∅)))
    as [st|e] eqn:Hp; [|vm_compute in Hp; discriminate].
  exists st. split; [reflexivity|].
  rewrite (other_values_ignored two_defaults
             (<["services" := VObj (<["a" := VBool false]> ∅)]> ∅)
             (<["a" := VBool false]> ∅) st "a").
  - reflexivity.
  - reflexivity.
  - exact Hp.
  - intros k' Hk'. destruct (decide (k' = "a")) as [->|Hne].
    + vm_compute in Hk'. discriminate.
    + rewrite lookup_insert_ne, lookup_empty in Hk' by done. discriminate.
  - intros o Ho. vm_compute in Ho. discriminate.
Defined.

(** X7. Composed from well-formed defaults, every entry of the pattern
    table handed to the host is a regular expression. *)
Theorem patterns_are_regexps (SERVICES : gmap string obj) (c m : obj) st k p :
  (∀ k rule, SERVICES !! k = Some rule → valid_rule rule) →
  c !! "services" = Some (VObj m) →
  prepare SERVICES (VObj c) = Normal st →
  patterns st !! k = Some p →
  ∃ re, p = VRegExp re.
Proof.
  intros Hvalid Hc Hp Hk.
  destruct (prepare_normal_lookup _ _ _ _ Hc Hp) as (_ & _ & Hproj).
  rewrite (Hproj k) in Hk. apply fmap_Some in Hk as (rule & Hrule & ->).
  destruct (prepare_registry_valid _ _ _ _ Hvalid Hc Hp _ _ Hrule) as [[re Hre] _ _ _ _ _].
  eauto.
Qed.

Lemma patterns_are_regexps_example :
  ∃ st, prepare two_defaults (config_of (<["c" := VObj (rule_x "u")]> ∅)) = Normal st
        ∧ ∃ re, patterns st !! "c" = Some (VRegExp re).
Proof.
  destruct (prepare two_defaults (config_of (<["c" := VObj (rule_x "u")]> ∅)))
    as [st|e] eqn:Hp; [|vm_compute in Hp; discriminate].
  exists st. split; [reflexivity|].
  assert (patterns st !! "c" = Some (VRegExp re_id)) as Hk.
  { vm_compute in Hp. injection Hp as <-. vm_compute. reflexivity. }
  destruct (patterns_are_regexps two_defaults
              (<["services" := VObj (<["c" := VObj (rule_x "u")]> ∅)]> ∅)
              (<["c" := VObj (rule_x "u")]> ∅) st "c" (VRegExp re_id)
              two_defaults_valid) as [re Hre]; [reflexivity | exact Hp | exact Hk |].
  exists re. by rewrite Hk, Hre.
Defined.

(** ** The accessors *)

(** X8. [save] changes nothing but the caption: every other field is
    returned as stored; on a rendered block the caption is the text of the
    view's input (empty when the view has none), on an unrendered one the
    stored caption; the returned record is the one the block now holds, the
    view is untouched, and saving again gives the same. *)
Theorem save_refreshes_caption (b : block) :
  (∀ k, k ≠ "caption" → (save b).2 !! k = _data b !! k)
  ∧ (save b).2 !! "caption"
    = match element b with
      | Some v => Some (VStr (default "" (input_html v)))
      | None => _data b !! "caption"
      end
  ∧ _data (save b).1 = (save b).2
  ∧ element (save b).1 = element b
  ∧ save (save b).1 = save b.
Proof.
  unfold save. split; [|split; [|split; [|split]]].
  - intros k Hk. destruct b as [d [v|]]; simpl; [|done]. by rewrite lookup_insert_ne.
  - destruct b as [d [v|]]; simpl; [|done]. by rewrite lookup_insert_eq.
  - apply get_data_stored.
  - apply get_data_element.
  - apply get_data_idem.
Qed.

Lemma stored_lookup (data : value) (b : block) k :
  k ∈ data_fields →
  stored data b !! k
  = Some (if to_boolean (read data k) then read data k else prop (_data b) k).
Proof.
  intros Hk. unfold data_fields in Hk. unfold stored, embed_data.
  repeat (apply elem_of_cons in Hk as [-> | Hk];
          [rewrite ?lookup_insert_ne, lookup_insert_eq by done;
           by rewrite refreshed_other by done|]).
  by apply elem_of_nil in Hk.
Qed.

Lemma stored_caption (data : value) (b : block) :
  stored data b !! "caption"
  = Some (js_or (js_or (if is_undefined (read data "caption") then VStr ""
                        else read data "caption")
                   (prop (refreshed b) "caption"))
            (VStr "")).
Proof.
  unfold stored, embed_data. by rewrite !lookup_insert_ne, lookup_insert_eq by done.
Qed.

Lemma stored_dom (data : value) (b : block) :
  dom (stored data b) = list_to_set (data_fields ++ ["caption"]).
Proof.
  unfold stored, embed_data, data_fields.
  rewrite !dom_insert_L, dom_empty_L. simpl. set_solver.
Qed.

Lemma js_or_empty_settled v :
  to_boolean (js_or v (VStr "")) = true ∨ js_or v (VStr "") = VStr "".
Proof. unfold js_or. destruct (to_boolean v) eqn:Hv; [by left | by right]. Qed.

Lemma caption_text_settled s : to_boolean (VStr s) = true ∨ VStr s = VStr "".
Proof. destruct (String.eqb_spec s "") as [->|Hs]; [by right|]. left. simpl.
  by destruct (String.eqb_spec s ""). Qed.

(** X9. The setter keeps the record well-formed. From a block whose five
    data fields are each truthy or [undefined] (as in a new block),
    assigning any object leaves a record of exactly the six fields in
    which those five are again truthy or [undefined] and the caption is
    truthy or the empty string, so never [undefined]; and what [save]
    returns from such a block is such a record. *)
Theorem set_data_settled (env : host) (registry : gmap string obj) data b :
  (instanceof_Object data = true →
   (∀ k, k ∈ data_fields → kept (prop (_data b) k)) →
   settled (_data (set_data env registry data b).1))
  ∧ (settled (_data b) → settled (save b).2).
Proof.
  split.
  - intros Hobj Hkept. rewrite set_data_stored by done.
    assert (∀ k, k ∈ data_fields → kept (prop (stored data b) k)) as Hfields.
    { intros k Hk. unfold prop at 1. rewrite stored_lookup by done. simpl.
      destruct (to_boolean (read data k)) eqn:Ht; [by left | by apply Hkept]. }
    destruct (element b) as [v|].
    + split; [|split].
      * rewrite dom_insert_L, stored_dom. unfold data_fields. simpl. set_solver.
      * intros k Hk. unfold prop at 1. rewrite lookup_insert_ne; [by apply Hfields|].
        intros <-. unfold data_fields in Hk.
        repeat (apply elem_of_cons in Hk as [[=] | Hk]). by apply elem_of_nil in Hk.
      * unfold prop. rewrite lookup_insert_eq. apply caption_text_settled.
    + split; [apply stored_dom|]. split; [exact Hfields|].
      unfold prop at 1 2. rewrite stored_caption. apply js_or_empty_settled.
  - intros (Hdom & Hfields & Hcap). unfold save.
    destruct b as [d [v|]]; simpl in *; [|done].
    split; [|split].
    + rewrite dom_insert_L, Hdom. unfold data_fields. simpl. set_solver.
    + intros k Hk. unfold prop at 1. rewrite lookup_insert_ne; [by apply Hfields|].
      intros <-. unfold data_fields in Hk.
      repeat (apply elem_of_cons in Hk as [[=] | Hk]). by apply elem_of_nil in Hk.
    + unfold prop. rewrite lookup_insert_eq. apply caption_text_settled.
Qed.

Lemma set_data_settled_example :
  settled (_data (set_data sample_host two_defaults
                    (VObj (<["width" := VNum (Finite 0)]> ∅)) sample_block).1).
Proof.
  apply (proj1 (set_data_settled sample_host two_defaults
                  (VObj (<["width" := VNum (Finite 0)]> ∅)) sample_block));
    [reflexivity|].
  intros k Hk. unfold data_fields in Hk.
  repeat (apply elem_of_cons in Hk as [-> | Hk]; [by left|]).
  by apply elem_of_nil in Hk.
Defined.

(** X10. Saved data restores: constructing a block from a record as the
    setter leaves it throws nothing, renders nothing, and holds exactly
    that record, which [save] then returns unchanged. *)
Theorem constructor_restores (env : host) (registry : gmap string obj) (d : obj) :
  settled d →
  constructor env registry (VObj d) = ({| _data := d; element := None |}, None)
  ∧ (save (constructor env registry (VObj d)).1).2 = d.
Proof.
  intros (Hdom & Hfields & Hcap).
  assert (constructor env registry (VObj d) = ({| _data := d; element := None |}, None))
    as Hc; [|by rewrite Hc].
  unfold constructor. rewrite set_data_object by done. simpl. do 2 f_equal.
  assert (∀ k, k ∈ dom d ↔ k ∈ data_fields ∨ k = "caption") as Hin.
  { intros k. rewrite Hdom, elem_of_list_to_set, elem_of_app, list_elem_of_singleton.
    done. }
  apply map_eq; intros k.
  destruct (decide (k ∈ data_fields)) as [Hk|Hk].
  - rewrite stored_lookup by done. simpl.
    assert (is_Some (d !! k)) as [v Hv] by (apply elem_of_dom, Hin; by left).
    destruct (Hfields k Hk) as [Ht | Hu]; unfold prop in *; rewrite Hv in *; simpl in *.
    + by rewrite Ht.
    + subst v. done.
  - destruct (decide (k = "caption")) as [->|Hcaption].
    + rewrite stored_caption. simpl.
      assert (is_Some (d !! "caption")) as [v Hv] by (apply elem_of_dom, Hin; by right).
      unfold prop in *. rewrite Hv in *. simpl in *.
      destruct Hcap as [Ht | ->]; [|done].
      assert (is_undefined v = false) as -> by (by destruct v).
      unfold js_or. by rewrite !Ht.
    + transitivity (@None value).
      * apply not_elem_of_dom. rewrite stored_dom.
        rewrite elem_of_list_to_set, elem_of_app, list_elem_of_singleton. tauto.
      * symmetry. apply not_elem_of_dom. rewrite Hin. tauto.
Qed.

Lemma constructor_restores_example :
  constructor sample_host two_defaults (VObj (_data sample_block)) = (sample_block, None).
Proof.
  apply (constructor_restores sample_host two_defaults (_data sample_block)).
  split; [|split].
  - unfold sample_block, embed_data, data_fields. simpl.
    rewrite !dom_insert_L, dom_empty_L. set_solver.
  - intros k Hk. unfold data_fields in Hk.
    repeat (apply elem_of_cons in Hk as [-> | Hk]; [by left|]).
    by apply elem_of_nil in Hk.
  - by right.
Defined.

(** ** Rendering *)

(** X11. A block without a service renders the prompt and never throws. A
    block whose service is a non-empty name missing from the registry (a
    saved embed of a service that is no longer enabled) cannot be
    rendered: [render] throws a [TypeError] and the view stays as it was.
    Either way the stored record changes by the caption refresh only. *)
Theorem render_outcomes (env : host) (registry : gmap string obj) (b : block) :
  (to_boolean (prop (_data b) "service") = false →
   render env registry b
   = ({| _data := refreshed b; element := Some input_holder |}, Normal input_holder))
  ∧ (∀ s, prop (_data b) "service" = VStr s → s ≠ "" → registry !! s = None →
       render env registry b
       = ({| _data := refreshed b; element := element b |}, Throw TypeError)).
Proof.
  pose proof (get_data_idem b) as Hi.
  pose proof (get_data_stored b) as Hs.
  pose proof (get_data_element b) as He.
  pose proof (refreshed_other b "service" ltac:(done)) as Hsv.
  unfold refreshed in *. unfold render.
  destruct (get_data b) as [b1 d] eqn:Hg. simpl in *. split.
  - intros Hfalsy. rewrite Hsv, Hfalsy. simpl. by rewrite Hs.
  - intros s Hservice Hne Hnone. rewrite Hsv, Hservice. simpl.
    destruct (String.eqb_spec s ""); [done|]. simpl.
    rewrite Hi. simpl. rewrite Hsv, Hservice. simpl. rewrite Hnone.
    destruct b1 as [d1 e1]. simpl in *. by subst.
Qed.

Lemma render_outcomes_example :
  render sample_host ∅ sample_block = (sample_block, Throw TypeError).
Proof.
  apply (proj2 (render_outcomes sample_host ∅ sample_block) "a");
    [reflexivity | discriminate | reflexivity].
Defined.

(** ** Resolution and the block *)

(** What resolution returns is the descriptor of the key's rule. *)
Lemma resolve_record (registry : gmap string obj) service url data :
  resolve registry service url = Normal data →
  ∃ rule embed, registry !! service = Some rule
                ∧ data = descriptor service url embed rule.
Proof.
  unfold resolve. destruct (registry !! service) as [rule|]; simpl; [|done].
  destruct (prop rule "regex") as [| | | | |r| |]; try done.
  destruct (regexp_exec r url).1 as [[full groups]|]; [|done].
  destruct (if is_undefined (prop rule "id") then _ else _) as [| | | | | |f|];
    destruct (prop rule "embedUrl"); try done;
    destruct (f groups); simpl; try done.
  intros [= <-]. eauto.
Qed.

(** X12. After a resolution that succeeds, the block holds the dispatched
    key as [service] and the address as [source] (when they are not empty);
    [width] and [height] are the rule's when the rule gives truthy ones,
    and otherwise stay what the block held before, so a rule without size
    hints inherits the size of the embed it replaces. *)
Theorem performServices_state (env : host) (registry : gmap string obj)
    service url data rule b :
  resolve registry service url = Normal data →
  registry !! service = Some rule →
  let after := _data (performServices env registry service url b).1 in
  (service ≠ "" → after !! "service" = Some (VStr service))
  ∧ (url ≠ "" → after !! "source" = Some (VStr url))
  ∧ (∀ k, k = "width" ∨ k = "height" →
       after !! k
       = Some (if to_boolean (prop rule k) then prop rule k else prop (_data b) k)).
Proof.
  intros Hres Hrule after. unfold after, performServices. rewrite Hres.
  destruct (resolve_record _ _ _ _ Hres) as (rule' & embed & Hrule' & ->).
  rewrite Hrule in Hrule'. injection Hrule' as <-.
  rewrite set_data_stored by done.
  assert (∀ k, k ∈ data_fields →
            match element b with
            | Some v => <["caption":=VStr (default "" (input_html v))]>
                          (stored (VObj (descriptor service url embed rule)) b)
            | None => stored (VObj (descriptor service url embed rule)) b
            end !! k
            = stored (VObj (descriptor service url embed rule)) b !! k) as Hsame.
  { intros k Hk. destruct (element b); [|done].
    rewrite lookup_insert_ne; [done|]. intros <-. unfold data_fields in Hk.
    repeat (apply elem_of_cons in Hk as [[=] | Hk]). by apply elem_of_nil in Hk. }
  assert (∀ t, t ≠ "" → to_boolean (VStr t) = true) as Htruthy.
  { intros t Ht. simpl. by destruct (String.eqb_spec t ""). }
  assert (read (VObj (descriptor service url embed rule)) "service" = VStr service)
    as Hservice.
  { unfold read, descriptor, prop. by rewrite lookup_insert_eq. }
  assert (read (VObj (descriptor service url embed rule)) "source" = VStr url)
    as Hsource.
  { unfold read, descriptor, prop. by rewrite lookup_insert_ne, lookup_insert_eq. }
  assert (∀ k, k = "width" ∨ k = "height" →
            read (VObj (descriptor service url embed rule)) k = prop rule k) as Hsize.
  { intros k [-> | ->]; unfold read, descriptor; unfold prop at 1;
      by rewrite !lookup_insert_ne, lookup_insert_eq by done. }
  split; [|split].
  - intros Hne. rewrite Hsame, stored_lookup by (unfold data_fields; repeat constructor).
    by rewrite Hservice, (Htruthy service Hne).
  - intros Hne. rewrite Hsame, stored_lookup by (unfold data_fields; repeat constructor).
    by rewrite Hsource, (Htruthy url Hne).
  - intros k Hk.
    assert (k ∈ data_fields) as Hin
      by (destruct Hk as [-> | ->]; unfold data_fields; repeat constructor).
    by rewrite Hsame, stored_lookup, Hsize by done.
Qed.

Lemma performServices_state_example :
  _data (performServices sample_host
           (<["x" := rule_x "https://x/<%= remote_id %>"]> ∅)
           "x" "http://a?id=abc123" sample_block).1 !! "width"
  = Some (VNum (Finite 580)).
Proof.
  destruct (performServices_state sample_host
              (<["x" := rule_x "https://x/<%= remote_id %>"]> ∅)
              "x" "http://a?id=abc123"
              (descriptor "x" "http://a?id=abc123" "https://x/abc123"
                 (rule_x "https://x/<%= remote_id %>"))
              (rule_x "https://x/<%= remote_id %>") sample_block)
    as (_ & _ & Hsize).
  - vm_compute. reflexivity.
  - reflexivity.
  - rewrite (Hsize "width") by (by left). reflexivity.
Defined.

(** ** The tool's own input *)

Lemma m_lit (t : string) i s caps k :
  RegExp.m (RegExp.lit t) i s caps k
  = if String.prefix t s then k (string_drop (String.length t) s) caps else None.
Proof.
  revert i s. induction t as [|c t IH]; intros i s.
  - simpl. by destruct s.
  - cbn [RegExp.lit RegExp.m RegExp.groups]. destruct s as [|c' s]; [done|].
    cbn [String.prefix String.length string_drop].
    destruct (Ascii.eqb_spec c c') as [->|Hne]; destruct (ascii_dec _ _); done.
Qed.

(** Matching against a name is the substring test. *)
Lemma String_match_includes (s name : string) : String_match s name = includes name s.
Proof.
  unfold String_match, RegExp.exec. induction s as [|c s IH].
  - cbn [RegExp.exec_from includes]. rewrite m_lit.
    destruct (String.prefix name ""); done.
  - cbn [RegExp.exec_from includes]. rewrite m_lit.
    destruct (String.prefix name (String c s)); [done|]. exact IH.
Qed.

(** X13. [matchService] recognises an address by the first of the names
    [youtube], [codepen], [vimeo] that occurs in it, in this order, and
    answers [null] when none does; the event it builds carries the address
    as it is, and its key is always one of these three names. *)
Theorem matchService_dispatch (url : string) :
  matchService url
  = (if includes "youtube" url then Some ("youtube", url)
     else if includes "codepen" url then Some ("codepen", url)
     else if includes "vimeo" url then Some ("vimeo", url)
     else None)
  ∧ ∀ key data, matchService url = Some (key, data) →
                data = url ∧ key ∈ ["youtube"; "codepen"; "vimeo"].
Proof.
  assert (matchService url
          = (if includes "youtube" url then Some ("youtube", url)
             else if includes "codepen" url then Some ("codepen", url)
             else if includes "vimeo" url then Some ("vimeo", url)
             else None)) as Hm.
  { unfold matchService, composePasteEventMock. by rewrite !String_match_includes. }
  split; [exact Hm|]. intros key data. rewrite Hm.
  destruct (includes "youtube" url); [intros [= <- <-]; split; [done | repeat constructor]|].
  destruct (includes "codepen" url); [intros [= <- <-]; split; [done | repeat constructor]|].
  destruct (includes "vimeo" url); [intros [= <- <-]; split; [done | repeat constructor]|].
  done.
Qed.

(** X14. Submitting an address through the tool's input throws a
    [TypeError] and leaves the block as it was when none of the three
    names occurs in the address, whatever the registry holds (so a custom
    service is never reached this way), and also when the name that occurs
    is not a key of the registry. *)
Theorem submit_unrecognised (env : host) (registry : gmap string obj) url b :
  (includes "youtube" url = false → includes "codepen" url = false →
   includes "vimeo" url = false →
   submit env registry url b = (b, Some TypeError))
  ∧ (∀ key, matchService url = Some (key, url) → registry !! key = None →
       submit env registry url b = (b, Some TypeError)).
Proof.
  unfold submit, startLoading. split.
  - intros Hy Hc Hv. unfold matchService. rewrite !String_match_includes, Hy, Hc, Hv.
    done.
  - intros key -> Hnone. unfold performServices, resolve. by rewrite Hnone.
Qed.

Lemma submit_unrecognised_example :
  submit sample_host two_defaults "http://a?id=abc123" sample_block
  = (sample_block, Some TypeError).
Proof.
  apply (proj1 (submit_unrecognised sample_host two_defaults
                  "http://a?id=abc123" sample_block)); reflexivity.
Defined.

(** ** Substitution *)

Lemma replace_from_absent token expand before s :
  includes token s = false → replace_from token expand before 0 s = s.
Proof.
  revert before. induction s as [|c s IH]; intros before; [done|].
  cbn [includes replace_from]. intros [Hp Hs]%orb_false_elim.
  rewrite Hp. by rewrite IH.
Qed.

(** X15. An [embedUrl] in which the token [<%= remote_id %>] does not occur
    comes back from the replacement as it is, whatever the id. *)
Theorem replace_remote_id_absent (embedUrl id : string) :
  includes remote_id embedUrl = false →
  replace_remote_id embedUrl id = embedUrl.
Proof. intros Habsent. by apply replace_from_absent. Qed.

Lemma replace_remote_id_absent_example :
  replace_remote_id "https://x/<id>" "abc123" = "https://x/<id>".
Proof. apply replace_remote_id_absent. reflexivity. Defined.

(** X16. A rule without an [id] whose pattern captures nothing (no group,
    or a first group that took no part in the match) resolves with the
    text [undefined] in place of the token. *)
Theorem resolve_without_capture (registry : gmap string obj) service url
    (rule : obj) re template full groups :
  registry !! service = Some rule →
  prop rule "regex" = VRegExp re →
  prop rule "embedUrl" = VStr template →
  prop rule "id" = VUndefined →
  (regexp_exec re url).1 = Some (full, groups) →
  mjoin (head groups) = None →
  resolve registry service url
  = Normal (descriptor service url (substitute remote_id "undefined" template) rule).
Proof.
  intros Hrule Hre Htemplate Hid Hexec Hnone.
  unfold resolve. rewrite Hrule. simpl. rewrite Hre, Htemplate, Hexec, Hid. simpl.
  unfold first_group. rewrite Hnone. simpl.
  by rewrite replace_remote_id_substitute.
Qed.

Lemma resolve_without_capture_example :
  resolve (<["x" := <["regex" := VRegExp (regexp_of "id=" (RegExp.lit "id="))]>
                      (rule_x "https://x/<%= remote_id %>")]> ∅)
    "x" "http://a?id=abc123"
  = Normal (descriptor "x" "http://a?id=abc123" "https://x/undefined"
              (<["regex" := VRegExp (regexp_of "id=" (RegExp.lit "id="))]>
                 (rule_x "https://x/<%= remote_id %>"))).
Proof.
  apply (resolve_without_capture _ "x" "http://a?id=abc123" _
           (regexp_of "id=" (RegExp.lit "id="))
           "https://x/<%= remote_id %>" "id=" []).
  - reflexivity.
  - reflexivity.
  - reflexivity.
  - reflexivity.
  - vm_compute. reflexivity.
  - reflexivity.
Defined.

Lemma matchService_dispatch_example :
  matchService "https://vimeo.com/youtube" = Some ("youtube", "https://vimeo.com/youtube").
Proof.
  rewrite (proj1 (matchService_dispatch "https://vimeo.com/youtube")). reflexivity.
Defined.


Lemma prepare_throws_iff_example :
  is_throw (prepare two_defaults (config_of (<["a" := VNull]> ∅))) = true.
Proof.
  apply (proj2 (prepare_throws_iff two_defaults (config_of (<["a" := VNull]> ∅)))).
  right. exists (<["services" := VObj (<["a" := VNull]> ∅)]> ∅). split; [reflexivity|].
  right. exists (<["a" := VNull]> ∅), "a". split; reflexivity.
Defined.

Lemma save_refreshes_caption_example :
  (save sample_block).2 !! "width" = Some (VNum (Finite 580)).
Proof.
  rewrite (proj1 (save_refreshes_caption sample_block) "width") by discriminate.
  reflexivity.
Defined.
